(** * IRMemoryMap: the dual-space memory map of the expression evaluator

    A shallow embedding of [IRMemoryMap.cpp] (allocation index, policy
    dispatch of Malloc / Free / Leak / WriteMemory / ReadMemory, the
    destructor) together with the properties stated about it.

    Conventions.
    - [lldb::addr_t] and [size_t] are 64-bit unsigned integers: values are
      [Z] and every arithmetic step that can leave [0, 2^64) is wrapped
      explicitly with [wrap64].
    - [m_allocations] is a [std::map<lldb::addr_t, Allocation>]: a [gmap]
      with the ordered queries the code uses (begin, rbegin, lower_bound,
      iterator decrement) defined on its key set.
    - The inferior process is an external collaborator.  It is modelled as
      a deterministic function of the calls the map has made to it so far;
      the map state carries that call log, so that "which remote call was
      made, with which arguments, how often" can be stated. *)

From Stdlib Require Import ZArith Strings.Byte Lia.
From stdpp Require Import gmap list fin_maps strings.

Open Scope Z_scope.

(** ** 64-bit unsigned arithmetic *)

Definition wrap64 (z : Z) : Z := z mod 2 ^ 64.

(** [~x] on a 64-bit unsigned value. *)
Definition not64 (x : Z) : Z := Z.lxor x (Z.ones 64).

Definition LLDB_INVALID_ADDRESS : Z := 2 ^ 64 - 1.

(** Modelled from the spec: the permission bits of lldb-enumerations.h,
    which is not among the sources ("Readable=1, Writable=2,
    Executable=4 (combinable)"). *)
Definition ePermissionsReadable : Z := 1.
Definition ePermissionsWritable : Z := 2.
Definition ePermissionsExecutable : Z := 4.

(** Modelled from the spec: [llvm::alignTo] of llvm/Support/MathExtras.h,
    which is not among the sources; the spec's [align_up(x, 4096)], the
    next multiple of the alignment at or above [x], computed on
    [uint64_t] as [(Value + Align - 1) / Align * Align]. *)
Definition alignTo (Value Align : Z) : Z :=
  wrap64 (Value + Align - 1) / Align * Align.

(** ** Errors *)

(** [lldb_private::Error]: cleared (success) or a generic error carrying
    the message the code sets. *)
Inductive Error : Type :=
| Success
| GenericError (msg : string).

Definition Error_Success (e : Error) : bool :=
  match e with Success => true | GenericError _ => false end.

Definition err_malloc_invalid_policy : Error :=
  GenericError "Couldn't malloc: invalid allocation policy".
Definition err_malloc_full : Error :=
  GenericError "Couldn't malloc: address space is full".
Definition err_malloc_no_jit : Error :=
  GenericError "Couldn't malloc: process doesn't support allocating memory".
Definition err_malloc_no_process : Error :=
  GenericError "Couldn't malloc: process doesn't exist, and this memory must be in the process".
Definition err_leak_not_found : Error :=
  GenericError "Couldn't leak: allocation doesn't exist".
Definition err_free_not_found : Error :=
  GenericError "Couldn't free: allocation doesn't exist".
Definition err_write_no_allocation : Error :=
  GenericError "Couldn't write: no allocation contains the target range and the process doesn't exist".
Definition err_write_invalid_policy : Error :=
  GenericError "Couldn't write: invalid allocation policy".
Definition err_write_empty : Error :=
  GenericError "Couldn't write: data buffer is empty".
Definition err_read_no_allocation : Error :=
  GenericError "Couldn't read: no allocation contains the target range, and neither the process nor the target exist".
Definition err_read_not_in_allocation : Error :=
  GenericError "Couldn't read: data is not in the allocation".
Definition err_read_invalid_policy : Error :=
  GenericError "Couldn't read: invalid allocation policy".
Definition err_read_empty : Error :=
  GenericError "Couldn't read: data buffer is empty".
Definition err_read_short : Error :=
  GenericError "Couldn't read: not enough underlying data".

(** ** Allocation records *)

(** The three policies, and one more constructor for any other value of
    the enum, which is what the [default:] labels of the switches catch. *)
Inductive AllocationPolicy : Type :=
| eAllocationPolicyInvalid
| eAllocationPolicyHostOnly
| eAllocationPolicyMirror
| eAllocationPolicyProcessOnly.

#[global] Instance AllocationPolicy_eq_dec : EqDecision AllocationPolicy.
Proof. solve_decision. Defined.

Record Allocation : Type := mkAllocation {
  m_process_alloc : Z;      (* raw start, as handed out by the backing store *)
  m_process_start : Z;      (* aligned start, the key of the index *)
  m_size : Z;
  m_permissions : Z;
  m_alignment : Z;
  m_policy : AllocationPolicy;
  m_data : list byte;       (* DataBufferHeap: the host shadow buffer *)
  m_leak : bool
}.

(** [IRMemoryMap::Allocation::Allocation]: the shadow buffer is sized and
    zeroed for HostOnly and Mirror (the [default:] label falls through to
    HostOnly), and left empty for ProcessOnly. *)
Definition Allocation_new (process_alloc process_start size permissions alignment : Z)
    (policy : AllocationPolicy) : Allocation :=
  {| m_process_alloc := process_alloc;
     m_process_start := process_start;
     m_size := size;
     m_permissions := permissions;
     m_alignment := alignment;
     m_policy := policy;
     m_data := match policy with
               | eAllocationPolicyProcessOnly => []
               | _ => replicate (Z.to_nat size) x00
               end;
     m_leak := false |}.

Definition Allocation_set_leak (al : Allocation) : Allocation :=
  {| m_process_alloc := m_process_alloc al;
     m_process_start := m_process_start al;
     m_size := m_size al;
     m_permissions := m_permissions al;
     m_alignment := m_alignment al;
     m_policy := m_policy al;
     m_data := m_data al;
     m_leak := true |}.

Definition Allocation_set_data (al : Allocation) (d : list byte) : Allocation :=
  {| m_process_alloc := m_process_alloc al;
     m_process_start := m_process_start al;
     m_size := m_size al;
     m_permissions := m_permissions al;
     m_alignment := m_alignment al;
     m_policy := m_policy al;
     m_data := d;
     m_leak := m_leak al |}.

(** [memcpy (dst + offset, src, size)] on a buffer held as a list.  The
    C call is only defined when the range lies inside [dst]; there this is
    the buffer with that range replaced. *)
Definition memcpy_into (dst : list byte) (offset : Z) (src : list byte) (size : Z) : list byte :=
  take (Z.to_nat offset) dst ++ take (Z.to_nat size) src
    ++ drop (Z.to_nat offset + Z.to_nat size) dst.

(** [memcpy (out, src + offset, size)]: the bytes copied out. *)
Definition memcpy_from (src : list byte) (offset size : Z) : list byte :=
  take (Z.to_nat size) (drop (Z.to_nat offset) src).

(** ** The inferior process and the target *)

(** The calls the map makes on [lldb::ProcessSP]. *)
Inductive ProcessCall : Type :=
| CallAllocateMemory (size permissions : Z)
| CallCallocateMemory (size permissions : Z)
| CallDeallocateMemory (addr : Z)
| CallReadMemory (addr size : Z)
| CallWriteMemory (addr : Z) (bytes : list byte) (size : Z).

#[global] Instance byte_eq_decision : EqDecision byte := Byte.byte_eq_dec.

#[global] Instance ProcessCall_eq_dec : EqDecision ProcessCall.
Proof. solve_decision. Defined.

(** What the process answers, given the calls made so far. *)
Record Process : Type := mkProcess {
  CanJIT : list ProcessCall -> bool;
  IsAlive : list ProcessCall -> bool;
  AllocateMemory : list ProcessCall -> Z -> Z -> Z * Error;
  CallocateMemory : list ProcessCall -> Z -> Z -> Z * Error;
  Process_ReadMemory : list ProcessCall -> Z -> list byte -> Z -> list byte * Error;
  Process_WriteMemory : list ProcessCall -> Z -> list byte -> Z -> Error
}.

(** [Target::ReadMemory] on an absolute address: the bytes and the error. *)
Record Target : Type := mkTarget {
  Target_ReadMemory : Z -> list byte -> Z -> list byte * Error
}.

(** ** The map object *)

(** [m_process_wp] and [m_target_wp] are weak pointers: [None] is a
    pointer whose [lock()] yields null.  [process_calls] is the log of the
    calls made on the process, oldest first. *)
Record IRMemoryMap : Type := mkIRMemoryMap {
  m_process_wp : option Process;
  m_target_wp : option Target;
  m_allocations : gmap Z Allocation;
  process_calls : list ProcessCall
}.

Definition IRMemoryMap_new (process : option Process) (target : option Target) : IRMemoryMap :=
  {| m_process_wp := process; m_target_wp := target;
     m_allocations := ∅; process_calls := [] |}.

Definition set_allocations (self : IRMemoryMap) (m : gmap Z Allocation) : IRMemoryMap :=
  {| m_process_wp := m_process_wp self; m_target_wp := m_target_wp self;
     m_allocations := m; process_calls := process_calls self |}.

Definition log_call (self : IRMemoryMap) (c : ProcessCall) : IRMemoryMap :=
  {| m_process_wp := m_process_wp self; m_target_wp := m_target_wp self;
     m_allocations := m_allocations self;
     process_calls := process_calls self ++ [c] |}.

(** [process_sp && process_sp->CanJIT() && process_sp->IsAlive()]. *)
Definition process_can_allocate (self : IRMemoryMap) : bool :=
  match m_process_wp self with
  | Some p => CanJIT p (process_calls self) && IsAlive p (process_calls self)
  | None => false
  end.

(** ** Ordered queries on the index *)

Definition key_max (ks : list Z) : option Z :=
  foldr (fun k acc => Some (from_option (Z.max k) k acc)) None ks.

Definition key_min (ks : list Z) : option Z :=
  foldr (fun k acc => Some (from_option (Z.min k) k acc)) None ks.

Definition alloc_keys (m : gmap Z Allocation) : list Z := (map_to_list m).*1.

(** An iterator of the index: [None] is [end()], [Some k] stands at key [k]. *)
Definition map_begin (m : gmap Z Allocation) : option Z := key_min (alloc_keys m).

Definition map_rbegin (m : gmap Z Allocation) : option Z := key_max (alloc_keys m).

Definition lower_bound (m : gmap Z Allocation) (addr : Z) : option Z :=
  key_min (filter (fun k => addr <= k) (alloc_keys m)).

(** [iter--]: the entry before [iter] in key order. *)
Definition iter_prev (m : gmap Z Allocation) (iter : option Z) : option Z :=
  match iter with
  | None => map_rbegin m
  | Some k => key_max (filter (fun k' => k' < k) (alloc_keys m))
  end.

(** ** IRMemoryMap::FindSpace *)

(** The host pseudo-heap branch of [FindSpace]: 0 for an empty index,
    otherwise the first 4096-aligned address at or after the end of the
    last entry. *)
Definition FindSpace_host (m : gmap Z Allocation) : Z :=
  match map_rbegin m with
  | Some addr =>
      match m !! addr with
      | Some back => alignTo (wrap64 (addr + m_size back)) 4096
      | None => 0
      end
  | None => 0
  end.

Definition FindSpace (size : Z) (zero_memory : bool) (self : IRMemoryMap) : Z * IRMemoryMap :=
  if decide (size = 0) then (LLDB_INVALID_ADDRESS, self)
  else
    match m_process_wp self with
    | Some process_sp =>
        if CanJIT process_sp (process_calls self) && IsAlive process_sp (process_calls self) then
          let perms := Z.lor ePermissionsReadable ePermissionsWritable in
          if negb zero_memory then
            let '(ret, alloc_error) := AllocateMemory process_sp (process_calls self) size perms in
            let self' := log_call self (CallAllocateMemory size perms) in
            if Error_Success alloc_error then (ret, self') else (LLDB_INVALID_ADDRESS, self')
          else
            let '(ret, alloc_error) := CallocateMemory process_sp (process_calls self) size perms in
            let self' := log_call self (CallCallocateMemory size perms) in
            if Error_Success alloc_error then (ret, self') else (LLDB_INVALID_ADDRESS, self')
        else (FindSpace_host (m_allocations self), self)
    | None => (FindSpace_host (m_allocations self), self)
    end.

(** The default of [FindSpace]'s [zero_memory] parameter, which [Malloc]
    relies on.  Modelled from the spec: the declaration (IRMemoryMap.h) is
    not among the sources; the spec's [find_free_space(size)] takes the
    size alone and delegates to the remote's plain allocator. *)
Definition FindSpace_zero_memory_default : bool := false.

(** ** IRMemoryMap::FindAllocation, IntersectsAllocation *)

Definition AllocationsIntersect (addr1 size1 addr2 size2 : Z) : bool :=
  (addr2 <? wrap64 (addr1 + size1)) && (addr1 <? wrap64 (addr2 + size2)).

(** The final containment test of [FindAllocation] at iterator [iter]. *)
Definition FindAllocation_check (m : gmap Z Allocation) (iter : option Z) (addr size : Z)
    : option Z :=
  match iter with
  | Some k =>
      match m !! k with
      | Some al =>
          if (k <=? addr) && (wrap64 (addr + size) <=? wrap64 (k + m_size al))
          then Some k else None
      | None => None
      end
  | None => None
  end.

Definition FindAllocation (m : gmap Z Allocation) (addr size : Z) : option Z :=
  if decide (addr = LLDB_INVALID_ADDRESS) then None
  else
    let iter := lower_bound m addr in
    if match iter with None => true | Some k => addr <? k end then
      if decide (iter = map_begin m) then None
      else FindAllocation_check m (iter_prev m iter) addr size
    else FindAllocation_check m iter addr size.

Definition iter_intersects (m : gmap Z Allocation) (iter : option Z) (addr size : Z) : bool :=
  match iter with
  | Some k =>
      match m !! k with
      | Some al => AllocationsIntersect addr size (m_process_start al) (m_size al)
      | None => false
      end
  | None => false
  end.

Definition IntersectsAllocation (m : gmap Z Allocation) (addr size : Z) : bool :=
  if decide (addr = LLDB_INVALID_ADDRESS) then false
  else
    let iter := lower_bound m addr in
    if iter_intersects m iter addr size then true
    else if decide (iter = map_begin m) then false
    else iter_intersects m (iter_prev m iter) addr size.

(** ** IRMemoryMap::Malloc *)

(** Lines 240-246: the size that is allocated and recorded. *)
Definition Malloc_allocation_size (size alignment : Z) : Z :=
  let alignment_mask := wrap64 (alignment - 1) in
  if decide (size = 0) then alignment
  else if decide (Z.land size alignment_mask = 0) then size
       else Z.land (wrap64 (size + alignment)) (not64 alignment_mask).

(** Lines 322-330: align the raw address and record the allocation. *)
Definition Malloc_record (allocation_address allocation_size alignment permissions : Z)
    (policy : AllocationPolicy) (self : IRMemoryMap) : Z * Error * IRMemoryMap :=
  let mask := wrap64 (alignment - 1) in
  let aligned_address := Z.land (wrap64 (allocation_address + mask)) (not64 mask) in
  (aligned_address, Success,
   set_allocations self
     (<[aligned_address :=
          Allocation_new allocation_address aligned_address allocation_size
                         permissions alignment policy]> (m_allocations self))).

(** The host-only branch, shared by HostOnly and by Mirror once it has
    been downgraded. *)
Definition Malloc_host (allocation_size alignment permissions : Z) (self : IRMemoryMap)
    : Z * Error * IRMemoryMap :=
  let '(allocation_address, self1) :=
    FindSpace allocation_size FindSpace_zero_memory_default self in
  if decide (allocation_address = LLDB_INVALID_ADDRESS)
  then (LLDB_INVALID_ADDRESS, err_malloc_full, self1)
  else Malloc_record allocation_address allocation_size alignment permissions
                     eAllocationPolicyHostOnly self1.

(** The remote branch, shared by Mirror and ProcessOnly. *)
Definition Malloc_remote (process_sp : Process) (allocation_size alignment permissions : Z)
    (policy : AllocationPolicy) (zero_memory : bool) (self : IRMemoryMap)
    : Z * Error * IRMemoryMap :=
  let '(allocation_address, error, self1) :=
    if negb zero_memory then
      (AllocateMemory process_sp (process_calls self) allocation_size permissions,
       log_call self (CallAllocateMemory allocation_size permissions))
    else
      (CallocateMemory process_sp (process_calls self) allocation_size permissions,
       log_call self (CallCallocateMemory allocation_size permissions)) in
  if Error_Success error
  then Malloc_record allocation_address allocation_size alignment permissions policy self1
  else (LLDB_INVALID_ADDRESS, error, self1).

Definition Malloc (size alignment permissions : Z) (policy : AllocationPolicy)
    (zero_memory : bool) (self : IRMemoryMap) : Z * Error * IRMemoryMap :=
  let allocation_size := Malloc_allocation_size size alignment in
  match policy with
  | eAllocationPolicyInvalid => (LLDB_INVALID_ADDRESS, err_malloc_invalid_policy, self)
  | eAllocationPolicyHostOnly => Malloc_host allocation_size alignment permissions self
  | eAllocationPolicyMirror =>
      match m_process_wp self with
      | Some process_sp =>
          if CanJIT process_sp (process_calls self) && IsAlive process_sp (process_calls self)
          then Malloc_remote process_sp allocation_size alignment permissions
                             eAllocationPolicyMirror zero_memory self
          else Malloc_host allocation_size alignment permissions self
      | None => Malloc_host allocation_size alignment permissions self
      end
  | eAllocationPolicyProcessOnly =>
      match m_process_wp self with
      | Some process_sp =>
          if CanJIT process_sp (process_calls self) && IsAlive process_sp (process_calls self)
          then Malloc_remote process_sp allocation_size alignment permissions
                             eAllocationPolicyProcessOnly zero_memory self
          else (LLDB_INVALID_ADDRESS, err_malloc_no_jit, self)
      | None => (LLDB_INVALID_ADDRESS, err_malloc_no_process, self)
      end
  end.

(** ** IRMemoryMap::Leak and IRMemoryMap::Free *)

Definition Leak (process_address : Z) (self : IRMemoryMap) : Error * IRMemoryMap :=
  match m_allocations self !! process_address with
  | None => (err_leak_not_found, self)
  | Some allocation =>
      (Success,
       set_allocations self
         (<[process_address := Allocation_set_leak allocation]> (m_allocations self)))
  end.

Definition Free (process_address : Z) (self : IRMemoryMap) : Error * IRMemoryMap :=
  match m_allocations self !! process_address with
  | None => (err_free_not_found, self)
  | Some allocation =>
      let self1 :=
        match m_policy allocation with
        | eAllocationPolicyMirror | eAllocationPolicyProcessOnly =>
            match m_process_wp self with
            | Some process_sp =>
                log_call self (CallDeallocateMemory (m_process_alloc allocation))
            | None => self
            end
        | _ =>
            match m_process_wp self with
            | Some process_sp =>
                if CanJIT process_sp (process_calls self) && IsAlive process_sp (process_calls self)
                then log_call self (CallDeallocateMemory (m_process_alloc allocation))
                else self
            | None => self
            end
        end in
      (Success, set_allocations self1 (delete process_address (m_allocations self1)))
  end.

(** ** IRMemoryMap::WriteMemory *)

(** [process_sp->WriteMemory (process_address, bytes, size, error)]. *)
Definition forward_write (process_sp : Process) (process_address : Z) (bytes : list byte)
    (size : Z) (self : IRMemoryMap) : Error * IRMemoryMap :=
  (Process_WriteMemory process_sp (process_calls self) process_address bytes size,
   log_call self (CallWriteMemory process_address bytes size)).

(** The branch taken when no allocation contains the range. *)
Definition WriteMemory_no_allocation (process_address : Z) (bytes : list byte) (size : Z)
    (self : IRMemoryMap) : Error * IRMemoryMap :=
  match m_process_wp self with
  | Some process_sp => forward_write process_sp process_address bytes size self
  | None => (err_write_no_allocation, self)
  end.

(** The shadow buffer of the allocation at [k] after the [memcpy]. *)
Definition store_shadow (k : Z) (allocation : Allocation) (offset : Z) (bytes : list byte)
    (size : Z) (self : IRMemoryMap) : IRMemoryMap :=
  set_allocations self
    (<[k := Allocation_set_data allocation
              (memcpy_into (m_data allocation) offset bytes size)]> (m_allocations self)).

Definition WriteMemory (process_address : Z) (bytes : list byte) (size : Z)
    (self : IRMemoryMap) : Error * IRMemoryMap :=
  match FindAllocation (m_allocations self) process_address size with
  | None => WriteMemory_no_allocation process_address bytes size self
  | Some k =>
      match m_allocations self !! k with
      | None => WriteMemory_no_allocation process_address bytes size self
      | Some allocation =>
          let offset := wrap64 (process_address - m_process_start allocation) in
          match m_policy allocation with
          | eAllocationPolicyInvalid => (err_write_invalid_policy, self)
          | eAllocationPolicyHostOnly =>
              if decide (m_data allocation = []) then (err_write_empty, self)
              else (Success, store_shadow k allocation offset bytes size self)
          | eAllocationPolicyMirror =>
              if decide (m_data allocation = []) then (err_write_empty, self)
              else
                let self1 := store_shadow k allocation offset bytes size self in
                match m_process_wp self1 with
                | Some process_sp => forward_write process_sp process_address bytes size self1
                | None => (Success, self1)
                end
          | eAllocationPolicyProcessOnly =>
              match m_process_wp self with
              | Some process_sp => forward_write process_sp process_address bytes size self
              | None => (Success, self)
              end
          end
      end
  end.

(** ** IRMemoryMap::ReadMemory

    The caller's buffer is passed in and handed back: [bytes] stands for
    the [size] bytes at the pointer, so that the branches which leave the
    buffer untouched can be told apart from those which fill it. *)

Definition forward_read (process_sp : Process) (bytes : list byte) (process_address size : Z)
    (self : IRMemoryMap) : list byte * Error * IRMemoryMap :=
  (Process_ReadMemory process_sp (process_calls self) process_address bytes size,
   log_call self (CallReadMemory process_address size)).

(** The branch taken when no allocation contains the range. *)
Definition ReadMemory_no_allocation (bytes : list byte) (process_address size : Z)
    (self : IRMemoryMap) : list byte * Error * IRMemoryMap :=
  match m_process_wp self with
  | Some process_sp => forward_read process_sp bytes process_address size self
  | None =>
      match m_target_wp self with
      | Some target_sp => (Target_ReadMemory target_sp process_address bytes size, self)
      | None => (bytes, err_read_no_allocation, self)
      end
  end.

Definition ReadMemory (bytes : list byte) (process_address size : Z) (self : IRMemoryMap)
    : list byte * Error * IRMemoryMap :=
  match FindAllocation (m_allocations self) process_address size with
  | None => ReadMemory_no_allocation bytes process_address size self
  | Some k =>
      match m_allocations self !! k with
      | None => ReadMemory_no_allocation bytes process_address size self
      | Some allocation =>
          let offset := wrap64 (process_address - m_process_start allocation) in
          if m_size allocation <? offset then (bytes, err_read_not_in_allocation, self)
          else
            match m_policy allocation with
            | eAllocationPolicyInvalid => (bytes, err_read_invalid_policy, self)
            | eAllocationPolicyHostOnly =>
                if decide (m_data allocation = []) then (bytes, err_read_empty, self)
                else if Z.of_nat (length (m_data allocation)) <? wrap64 (offset + size)
                     then (bytes, err_read_short, self)
                     else (memcpy_from (m_data allocation) offset size, Success, self)
            | eAllocationPolicyMirror =>
                match m_process_wp self with
                | Some process_sp => forward_read process_sp bytes process_address size self
                | None =>
                    if decide (m_data allocation = []) then (bytes, err_read_empty, self)
                    else (memcpy_from (m_data allocation) offset size, Success, self)
                end
            | eAllocationPolicyProcessOnly =>
                match m_process_wp self with
                | Some process_sp => forward_read process_sp bytes process_address size self
                | None => (bytes, Success, self)
                end
            end
      end
  end.

(** ** IRMemoryMap::~IRMemoryMap *)

(** The [while] loop of the destructor.  Every round removes the first
    entry of the index, so [fuel] rounds suffice for an index of [fuel]
    entries; [None] means the fuel ran out first. *)
Fixpoint destructor_loop (fuel : nat) (self : IRMemoryMap) : option IRMemoryMap :=
  match map_begin (m_allocations self) with
  | None => Some self
  | Some k =>
      match fuel with
      | O => None
      | S fuel' =>
          match m_allocations self !! k with
          | None => None
          | Some allocation =>
              if m_leak allocation
              then destructor_loop fuel' (set_allocations self (delete k (m_allocations self)))
              else destructor_loop fuel' (Free k self).2
          end
      end
  end.

Definition destructor (self : IRMemoryMap) : option IRMemoryMap :=
  match m_process_wp self with
  | Some process_sp => destructor_loop (size (m_allocations self)) self
  | None => Some self
  end.

(** ** Invariants of the index (spec, section 3) *)

(** Every entry is stored under its aligned start. *)
Definition keyed_by_start (m : gmap Z Allocation) : Prop :=
  forall k al, m !! k = Some al -> m_process_start al = k.

(** Every entry is a non-empty range of 64-bit addresses that ends below
    the sentinel address. *)
Definition in_address_space (m : gmap Z Allocation) : Prop :=
  forall k al, m !! k = Some al -> 0 <= k /\ 0 < m_size al /\ k + m_size al < 2 ^ 64.

(** The shadow buffer of an entry that has one is as long as the entry. *)
Definition shadow_sized (m : gmap Z Allocation) : Prop :=
  forall k al, m !! k = Some al ->
    m_policy al <> eAllocationPolicyProcessOnly ->
    Z.of_nat (length (m_data al)) = m_size al.

(** Disjointness, with the code's own intersection test. *)
Definition disjoint_allocations (m : gmap Z Allocation) : Prop :=
  forall k1 al1 k2 al2,
    m !! k1 = Some al1 -> m !! k2 = Some al2 -> k1 <> k2 ->
    AllocationsIntersect (m_process_start al1) (m_size al1)
                         (m_process_start al2) (m_size al2) = false.

Record index_wf (m : gmap Z Allocation) : Prop := mk_index_wf {
  wf_keyed : keyed_by_start m;
  wf_space : in_address_space m;
  wf_shadow : shadow_sized m;
  wf_disjoint : disjoint_allocations m
}.

(** ** What the destructor asks of the remote *)

(** Whether [Free] on this entry reaches [DeallocateMemory], given that a
    process is there and whether it can allocate (CanJIT and IsAlive). *)
Definition Free_deallocates (can_allocate : bool) (al : Allocation) : bool :=
  match m_policy al with
  | eAllocationPolicyMirror | eAllocationPolicyProcessOnly => true
  | _ => can_allocate
  end.

(** The deallocations owed by the entries that are not leaked. *)
Definition owed_deallocations (can_allocate : bool) (m : gmap Z Allocation)
    : list ProcessCall :=
  (fun x : Z * Allocation => CallDeallocateMemory (m_process_alloc x.2)) <$>
    filter (fun x : Z * Allocation =>
              negb (m_leak x.2) && Free_deallocates can_allocate x.2 = true)
           (map_to_list m).

(** A process whose answers to CanJIT and IsAlive do not change when
    memory is deallocated. *)
Definition deallocation_keeps_flags (p : Process) : Prop :=
  forall h addr,
    CanJIT p (h ++ [CallDeallocateMemory addr]) = CanJIT p h /\
    IsAlive p (h ++ [CallDeallocateMemory addr]) = IsAlive p h.

(** ** Remote stand-ins for the scenarios *)

Definition is_allocation_call (c : ProcessCall) : bool :=
  match c with
  | CallAllocateMemory _ _ | CallCallocateMemory _ _ => true
  | _ => false
  end.

(** A remote with fixed answers to CanJIT and IsAlive that serves its
    n-th allocation request with the n-th address of [blocks] and fails
    once they are used up; reads leave the buffer alone and writes succeed. *)
Definition stub_process (can_jit alive : bool) (blocks : list Z) : Process :=
  let allocate (h : list ProcessCall) (size permissions : Z) : Z * Error :=
    match blocks !! length (filter (fun c => is_allocation_call c = true) h) with
    | Some addr => (addr, Success)
    | None => (LLDB_INVALID_ADDRESS, GenericError "stub: out of blocks")
    end in
  {| CanJIT := fun _ => can_jit;
     IsAlive := fun _ => alive;
     AllocateMemory := allocate;
     CallocateMemory := allocate;
     Process_ReadMemory := fun _ _ bytes _ => (bytes, Success);
     Process_WriteMemory := fun _ _ _ _ => Success |}.

(** A fresh map without process or target. *)
Definition fresh_map : IRMemoryMap := IRMemoryMap_new None None.

(** [n] successive [Malloc (100, 16, permissions, HostOnly, zero_memory)]. *)
Fixpoint host_mallocs (n : nat) (permissions : Z) (zero_memory : bool) (self : IRMemoryMap)
    : IRMemoryMap :=
  match n with
  | O => self
  | S n' =>
      (Malloc 100 16 permissions eAllocationPolicyHostOnly zero_memory
         (host_mallocs n' permissions zero_memory self)).2
  end.

(** ** Sequences of operations *)

Inductive Operation : Type :=
| OpMalloc (size alignment permissions : Z) (policy : AllocationPolicy) (zero_memory : bool)
| OpFree (process_address : Z)
| OpLeak (process_address : Z)
| OpWriteMemory (process_address : Z) (bytes : list byte) (size : Z)
| OpReadMemory (bytes : list byte) (process_address size : Z).

(** The map after one operation (the results handed to the caller are
    dropped). *)
Definition step (self : IRMemoryMap) (op : Operation) : IRMemoryMap :=
  match op with
  | OpMalloc size alignment permissions policy zero_memory =>
      (Malloc size alignment permissions policy zero_memory self).2
  | OpFree addr => (Free addr self).2
  | OpLeak addr => (Leak addr self).2
  | OpWriteMemory addr bytes size => (WriteMemory addr bytes size self).2
  | OpReadMemory bytes addr size => (ReadMemory bytes addr size self).2
  end.

Definition run (ops : list Operation) (self : IRMemoryMap) : IRMemoryMap :=
  foldl step self ops.

(** ** Operations that stay clear of 64-bit wrap-around *)

(** Every entry ends at least a page below the top of the address space,
    so that rounding its end up to a page does not wrap. *)
Definition below_last_page (m : gmap Z Allocation) : Prop :=
  forall k al, m !! k = Some al -> k + m_size al + 4095 < 2 ^ 64.

(** An operation fits the state it is applied to: a [Malloc] has a
    power-of-two alignment and its allocation fits into the address space
    after the pseudo-heap; a write copies from a buffer that holds the
    bytes, to a range that does not wrap. *)
Definition op_fits (self : IRMemoryMap) (op : Operation) : Prop :=
  match op with
  | OpMalloc size alignment _ _ _ =>
      (exists k, 0 <= k < 8 /\ alignment = 2 ^ k) /\
      0 <= size /\
      FindSpace_host (m_allocations self) + size + alignment + 4095 < 2 ^ 64
  | OpWriteMemory addr bytes size =>
      0 <= size <= Z.of_nat (length bytes) /\ addr + size < 2 ^ 64
  | _ => True
  end.

Fixpoint all_fit (ops : list Operation) (self : IRMemoryMap) : Prop :=
  match ops with
  | [] => True
  | op :: ops' => op_fits self op /\ all_fit ops' (step self op)
  end.

(** ** Scenarios with a remote *)

(** A remote that is alive but cannot JIT. *)
Definition alive_no_jit_process : Process := stub_process false true [].

(** A remote whose allocator hands out the adjacent blocks
    [0x1010, 0x1030) and [0x1030, 0x1040). *)
Definition adjacent_blocks_process : Process := stub_process true true [4112; 4144].

(** Two ProcessOnly allocations: 16 bytes at alignment 32 (allocation
    size 32), then 16 bytes at alignment 1. *)
Definition two_remote_mallocs : list Operation :=
  [OpMalloc 16 32 3 eAllocationPolicyProcessOnly false;
   OpMalloc 16 1 3 eAllocationPolicyProcessOnly false].

(** ** IRMemoryMap::GetAllocSize *)



(** ** Byte order, address width and IRMemoryMap::GetMemoryData *)

(** [printf] of an unsigned 64-bit number in a given base, lower case,
    without leading zeros: ["%" PRIx64] and ["%" PRIu64]. *)
Definition number_digit (d : Z) : Ascii.ascii :=
  Ascii.ascii_of_N (Z.to_N (if d <? 10 then 48 + d else 87 + d)).

Fixpoint number_digits (base : Z) (fuel : nat) (n : Z) (acc : string) : string :=
  match fuel with
  | O => acc
  | S fuel' =>
      let acc' := String (number_digit (n mod base)) acc in
      if n / base =? 0 then acc' else number_digits base fuel' (n / base) acc'
  end.

Definition PRIx64 (n : Z) : string := number_digits 16 16 (wrap64 n) "".

Definition PRIu64 (n : Z) : string := number_digits 10 20 (wrap64 n) "".

Definition UINT32_MAX : Z := 2 ^ 32 - 1.

Definition err_get_data_not_found (process_address size : Z) : Error :=
  GenericError ("Couldn't find an allocation containing [0x" +:+ PRIx64 process_address
                +:+ "..0x" +:+ PRIx64 (process_address + size) +:+ ")").
Definition err_get_data_invalid_policy : Error :=
  GenericError "Couldn't get memory data: invalid allocation policy".
Definition err_get_data_process_only : Error :=
  GenericError "Couldn't get memory data: memory is only in the target".
Definition err_get_data_empty : Error :=
  GenericError "Couldn't get memory data: data buffer is empty".
Definition err_get_data_zero : Error :=
  GenericError "Couldn't get memory data: its size was zero".

Section ByteOrderAndAddressSize.

(** [lldb::ByteOrder] and the accessors of the process and of the
    target's architecture are declared outside the sources at hand; they
    are taken as given. *)
Context {ByteOrder : Type}.
Variable eByteOrderInvalid : ByteOrder.
Variable Process_GetByteOrder : Process -> ByteOrder.
Variable Process_GetAddressByteSize : Process -> Z.
Variable Target_GetByteOrder : Target -> ByteOrder.
Variable Target_GetAddressByteSize : Target -> Z.

Definition GetByteOrder (self : IRMemoryMap) : ByteOrder :=
  match m_process_wp self with
  | Some process_sp => Process_GetByteOrder process_sp
  | None =>
      match m_target_wp self with
      | Some target_sp => Target_GetByteOrder target_sp
      | None => eByteOrderInvalid
      end
  end.

Definition GetAddressByteSize (self : IRMemoryMap) : Z :=
  match m_process_wp self with
  | Some process_sp => Process_GetAddressByteSize process_sp
  | None =>
      match m_target_wp self with
      | Some target_sp => Target_GetAddressByteSize target_sp
      | None => UINT32_MAX
      end
  end.

(** [DataExtractor (allocation.m_data.GetBytes () + offset, size, ...)]
    does not copy: it points into the shadow buffer of the allocation.
    The pointer is held as the key of that allocation and the offset into
    its buffer. *)
Record DataExtractor : Type := mkDataExtractor {
  de_allocation : Z;
  de_offset : Z;
  de_size : Z;
  de_byte_order : ByteOrder;
  de_addr_size : Z
}.

(** The bytes an extractor shows in a given state of the index; [None]
    when the allocation it points into is gone. *)
Definition DataExtractor_bytes (m : gmap Z Allocation) (extractor : DataExtractor)
    : option (list byte) :=
  match m !! de_allocation extractor with
  | Some al => Some (memcpy_from (m_data al) (de_offset extractor) (de_size extractor))
  | None => None
  end.

(** The first component is the value assigned to [extractor], [None]
    when the function returns without assigning it. *)
Definition GetMemoryData (process_address size : Z) (self : IRMemoryMap)
    : option DataExtractor * Error * IRMemoryMap :=
  if 0 <? size then
    match FindAllocation (m_allocations self) process_address size with
    | None => (None, err_get_data_not_found process_address size, self)
    | Some k =>
        match m_allocations self !! k with
        | None => (None, err_get_data_not_found process_address size, self)
        | Some allocation =>
            match m_policy allocation with
            | eAllocationPolicyInvalid => (None, err_get_data_invalid_policy, self)
            | eAllocationPolicyProcessOnly => (None, err_get_data_process_only, self)
            | eAllocationPolicyMirror =>
                if decide (m_data allocation = []) then (None, err_get_data_empty, self)
                else
                  match m_process_wp self with
                  | Some process_sp =>
                      let '(data, error) :=
                        Process_ReadMemory process_sp (process_calls self)
                          (m_process_start allocation) (m_data allocation)
                          (Z.of_nat (length (m_data allocation))) in
                      let self1 :=
                        log_call
                          (set_allocations self
                             (<[k := Allocation_set_data allocation data]>
                                (m_allocations self)))
                          (CallReadMemory (m_process_start allocation)
                             (Z.of_nat (length (m_data allocation)))) in
                      if Error_Success error then
                        let offset := wrap64 (process_address - m_process_start allocation) in
                        (Some (mkDataExtractor k offset size
                                 (GetByteOrder self1) (GetAddressByteSize self1)),
                         error, self1)
                      else (None, error, self1)
                  | None => (None, Success, self)
                  end
            | eAllocationPolicyHostOnly =>
                if decide (m_data allocation = []) then (None, err_get_data_empty, self)
                else
                  let offset := wrap64 (process_address - m_process_start allocation) in
                  (Some (mkDataExtractor k offset size
                           (GetByteOrder self) (GetAddressByteSize self)),
                   Success, self)
            end
        end
    end
  else (None, err_get_data_zero, self).

End ByteOrderAndAddressSize.

(** ** Scalars and pointers *)

Definition err_write_scalar_failed : Error :=
  GenericError "Couldn't write scalar: failed to get scalar as memory data".
Definition err_write_scalar_zero : Error :=
  GenericError "Couldn't write scalar: its size was zero".
Definition err_read_scalar_unsupported (size : Z) : Error :=
  GenericError ("Couldn't read scalar: unsupported size " +:+ PRIu64 size).
Definition err_read_scalar_zero : Error :=
  GenericError "Couldn't read scalar: its size was zero".

Section ScalarMarshalling.

Context {ByteOrder : Type}.
Variable eByteOrderInvalid : ByteOrder.
Variable Process_GetByteOrder : Process -> ByteOrder.
Variable Process_GetAddressByteSize : Process -> Z.
Variable Target_GetByteOrder : Target -> ByteOrder.
Variable Target_GetAddressByteSize : Target -> Z.

(** [lldb_private::Scalar] and the decoding side of [DataExtractor] are
    defined outside the sources at hand; what the map uses of them is
    taken as given: the byte size of a scalar, the bytes
    [Scalar::GetAsMemoryData] stores for a requested size and byte order
    (their number is the value it returns), the scalar made of an address,
    the scalar made of the unsigned integer read by
    [GetU8 / GetU16 / GetU32 / GetU64] from the start of a buffer, and
    [Scalar::ULongLong]. *)
Context {Scalar : Type}.
Variable Scalar_GetByteSize : Scalar -> Z.
Variable Scalar_GetAsMemoryData : Scalar -> Z -> ByteOrder -> list byte.
Variable Scalar_of_address : Z -> Scalar.
Variable DataExtractor_GetUnsigned : Z -> ByteOrder -> list byte -> Z.
Variable Scalar_of_unsigned : Z -> Z -> Scalar.
Variable Scalar_ULongLong : Scalar -> Z.

Local Abbreviation byte_order :=
  (GetByteOrder eByteOrderInvalid Process_GetByteOrder Target_GetByteOrder).
Local Abbreviation address_byte_size :=
  (GetAddressByteSize Process_GetAddressByteSize Target_GetAddressByteSize).

Definition WriteScalarToMemory (process_address : Z) (scalar : Scalar) (size : Z)
    (self : IRMemoryMap) : Error * IRMemoryMap :=
  let size := if decide (size = UINT32_MAX) then Scalar_GetByteSize scalar else size in
  if 0 <? size then
    let buf := Scalar_GetAsMemoryData scalar size (byte_order self) in
    let mem_size := Z.of_nat (length buf) in
    if 0 <? mem_size then WriteMemory process_address buf mem_size self
    else (err_write_scalar_failed, self)
  else (err_write_scalar_zero, self).

Definition WritePointerToMemory (process_address address : Z) (self : IRMemoryMap)
    : Error * IRMemoryMap :=
  WriteScalarToMemory process_address (Scalar_of_address address)
                      (address_byte_size self) self.

(** The first component is the value assigned to [scalar], [None] when
    the function returns without assigning it. *)
Definition ReadScalarFromMemory (process_address size : Z) (self : IRMemoryMap)
    : option Scalar * Error * IRMemoryMap :=
  if 0 <? size then
    let '(bytes, error, self1) :=
      ReadMemory (replicate (Z.to_nat size) x00) process_address size self in
    if Error_Success error then
      if decide (size = 1 \/ size = 2 \/ size = 4 \/ size = 8) then
        (Some (Scalar_of_unsigned size
                 (DataExtractor_GetUnsigned size (byte_order self1) bytes)),
         error, self1)
      else (None, err_read_scalar_unsupported size, self1)
    else (None, error, self1)
  else (None, err_read_scalar_zero, self).

(** The first component is the value stored through [address], [None]
    when nothing is stored. *)
Definition ReadPointerFromMemory (process_address : Z) (self : IRMemoryMap)
    : option Z * Error * IRMemoryMap :=
  let '(pointer_scalar, error, self1) :=
    ReadScalarFromMemory process_address (address_byte_size self) self in
  if Error_Success error
  then (Scalar_ULongLong <$> pointer_scalar, error, self1)
  else (None, error, self1).

End ScalarMarshalling.

(** ** A little-endian codec for the scalar layer

    A concrete instance of the scalar interface: scalars are unsigned
    integers, encoded least significant byte first. *)
Fixpoint le_bytes (n : nat) (v : Z) : list byte :=
  match n with
  | O => []
  | S n' => default x00 (Byte.of_N (Z.to_N (v mod 256))) :: le_bytes n' (v / 256)
  end.

Fixpoint le_value (bytes : list byte) : Z :=
  match bytes with
  | [] => 0
  | b :: rest => Z.of_N (Byte.to_N b) + 256 * le_value rest
  end.

Definition le_GetAsMemoryData (scalar size : Z) (order : bool) : list byte :=
  le_bytes (Z.to_nat size) scalar.

Definition le_GetUnsigned (size : Z) (order : bool) (bytes : list byte) : Z :=
  le_value bytes.

(** A map with a live process that cannot JIT and one HostOnly entry of
    112 bytes at 0x1000. *)
Definition one_host_entry_with_process : IRMemoryMap :=
  {| m_process_wp := Some alive_no_jit_process;
     m_target_wp := None;
     m_allocations :=
       <[4096 := Allocation_new 4096 4096 112 3 16 eAllocationPolicyHostOnly]> ∅;
     process_calls := [] |}.

(** * Properties *)

(** ** Facts about the 64-bit arithmetic *)

Section Word64.

Lemma pow2_64_pos : 0 < 2 ^ 64.
Proof. reflexivity. Qed.

Lemma wrap64_range z : 0 <= wrap64 z < 2 ^ 64.
Proof. unfold wrap64. apply Z.mod_pos_bound, pow2_64_pos. Qed.

Lemma wrap64_small z : 0 <= z < 2 ^ 64 -> wrap64 z = z.
Proof. intros. unfold wrap64. by apply Z.mod_small. Qed.

Lemma testbit_above_64 x n : 0 <= x < 2 ^ 64 -> 64 <= n -> Z.testbit x n = false.
Proof.
  intros [Hx0 Hx] Hn.
  destruct (decide (x = 0)) as [->|Hne]; [apply Z.bits_0|].
  apply Z.bits_above_log2; [done|].
  assert (Z.log2 x < 64) by (apply Z.log2_lt_pow2; lia).
  lia.
Qed.

(** On 64-bit operands, [a & ~m] clears in [a] the bits set in [m]. *)
Lemma land_not64 a m : 0 <= a < 2 ^ 64 -> Z.land a (not64 m) = Z.land a (Z.lnot m).
Proof.
  intros Ha. apply Z.bits_inj'. intros n Hn.
  rewrite !Z.land_spec. unfold not64.
  destruct (decide (n < 64)) as [Hlt|Hge].
  - rewrite Z.lxor_spec, Z.ones_spec_low, Z.lnot_spec by lia.
    by rewrite xorb_true_r.
  - by rewrite (testbit_above_64 a n) by lia.
Qed.

(** Masking with [~(2^k - 1)] rounds down to a multiple of [2^k]. *)
Lemma land_lnot_pow2_mask a k : 0 <= k -> Z.land a (Z.lnot (2 ^ k - 1)) = a - a mod 2 ^ k.
Proof.
  intros Hk.
  rewrite <- Z.ldiff_land.
  replace (2 ^ k - 1) with (Z.ones k) by (rewrite Z.ones_equiv; lia).
  rewrite Z.ldiff_ones_r, Z.shiftl_mul_pow2, Z.shiftr_div_pow2 by done.
  pose proof (Z.div_mod a (2 ^ k)). lia.
Qed.

Lemma land_pow2_mask a k : 0 <= k -> Z.land a (2 ^ k - 1) = a mod 2 ^ k.
Proof.
  intros Hk.
  replace (2 ^ k - 1) with (Z.ones k) by (rewrite Z.ones_equiv; lia).
  by apply Z.land_ones.
Qed.

Lemma pow2_alignment_range k : 0 <= k < 8 -> 1 <= 2 ^ k <= 128.
Proof.
  intros Hk. split.
  - assert (0 < 2 ^ k) by (apply Z.pow_pos_nonneg; lia). lia.
  - change 128 with (2 ^ 7). apply Z.pow_le_mono_r; lia.
Qed.

Lemma alignTo_4096_multiple v : (4096 | alignTo v 4096).
Proof. unfold alignTo. by apply Z.divide_factor_r. Qed.

Lemma alignTo_4096_range v : 0 <= alignTo v 4096 < 2 ^ 64 - 4095.
Proof.
  unfold alignTo. pose proof (wrap64_range (v + 4096 - 1)) as Hr.
  pose proof (Z.div_mod (wrap64 (v + 4096 - 1)) 4096).
  pose proof (Z.mod_pos_bound (wrap64 (v + 4096 - 1)) 4096).
  assert (0 <= wrap64 (v + 4096 - 1) / 4096) by (apply Z.div_pos; lia).
  assert (wrap64 (v + 4096 - 1) / 4096 < 2 ^ 52).
  { apply Z.div_lt_upper_bound; [lia|]. change (4096 * 2 ^ 52) with (2 ^ 64). lia. }
  change (2 ^ 64) with (4096 * 2 ^ 52). lia.
Qed.

(** Without wrap-around [alignTo] is the least multiple at or above. *)
Lemma alignTo_4096_ge v : 0 <= v -> v + 4095 < 2 ^ 64 -> v <= alignTo v 4096 < v + 4096.
Proof.
  intros Hv Hlt. unfold alignTo. rewrite wrap64_small by lia.
  pose proof (Z.div_mod (v + 4096 - 1) 4096).
  pose proof (Z.mod_pos_bound (v + 4096 - 1) 4096). lia.
Qed.

End Word64.

(** ** Malloc: the recorded size *)

(** The rounding of lines 240-246 for an alignment [2^k] that fits the
    [uint8_t] parameter, in the terms of divisibility. *)
Lemma Malloc_allocation_size_pow2 size k :
  0 <= size < 2 ^ 64 -> 0 <= k < 8 ->
  (size = 0 -> Malloc_allocation_size size (2 ^ k) = 2 ^ k) /\
  (size <> 0 -> (2 ^ k | size) -> Malloc_allocation_size size (2 ^ k) = size) /\
  (~ (2 ^ k | size) ->
   Malloc_allocation_size size (2 ^ k) =
     Z.land ((size + 2 ^ k) mod 2 ^ 64) (Z.lnot (2 ^ k - 1))).
Proof.
  intros Hsize Hk. pose proof (pow2_alignment_range k Hk) as Ha.
  unfold Malloc_allocation_size.
  rewrite (wrap64_small (2 ^ k - 1)) by lia.
  rewrite land_pow2_mask by lia.
  rewrite land_not64 by apply wrap64_range.
  assert (size mod 2 ^ k = 0 <-> (2 ^ k | size)) as Hdiv by (apply Z.mod_divide; lia).
  repeat split.
  - intros ->. by rewrite decide_True.
  - intros Hnz Hd. rewrite decide_False by done. rewrite decide_True; [done|]. by apply Hdiv.
  - intros Hd.
    rewrite decide_False by (intros ->; apply Hd, Z.divide_0_r).
    rewrite decide_False; [done|]. intros Hm. by apply Hd, Hdiv.
Qed.

(** Every path of [Malloc] that returns without an error has recorded,
    under the returned address, an allocation of the rounded size. *)
Lemma Malloc_record_lookup raw asize alignment permissions policy self addr err self' :
  Malloc_record raw asize alignment permissions policy self = (addr, err, self') ->
  err = Success /\
  m_allocations self' !! addr =
    Some (Allocation_new raw addr asize permissions alignment policy).
Proof.
  unfold Malloc_record. intros [= <- <- <-]. split; [done|].
  simpl. by rewrite lookup_insert_eq.
Qed.

Lemma Malloc_host_success asize alignment permissions self addr self' :
  Malloc_host asize alignment permissions self = (addr, Success, self') ->
  exists raw self1,
    FindSpace asize FindSpace_zero_memory_default self = (raw, self1) /\
    raw <> LLDB_INVALID_ADDRESS /\
    Malloc_record raw asize alignment permissions eAllocationPolicyHostOnly self1
      = (addr, Success, self').
Proof.
  unfold Malloc_host.
  destruct (FindSpace asize FindSpace_zero_memory_default self) as [raw self1].
  destruct (decide (raw = LLDB_INVALID_ADDRESS)); [done|].
  intros H. by exists raw, self1.
Qed.

Lemma Malloc_remote_success p asize alignment permissions policy zero_memory self addr self' :
  Malloc_remote p asize alignment permissions policy zero_memory self = (addr, Success, self') ->
  exists raw call,
    call = (if negb zero_memory then CallAllocateMemory asize permissions
            else CallCallocateMemory asize permissions) /\
    Malloc_record raw asize alignment permissions policy (log_call self call)
      = (addr, Success, self').
Proof.
  unfold Malloc_remote.
  destruct zero_memory; simpl.
  - destruct (CallocateMemory p (process_calls self) asize permissions) as [raw e].
    destruct e; simpl; [|done]. intros H. by eexists raw, _.
  - destruct (AllocateMemory p (process_calls self) asize permissions) as [raw e].
    destruct e; simpl; [|done]. intros H. by eexists raw, _.
Qed.

Lemma Malloc_success_recorded size alignment permissions policy zero_memory self addr self' :
  Malloc size alignment permissions policy zero_memory self = (addr, Success, self') ->
  exists al,
    m_allocations self' !! addr = Some al /\
    m_process_start al = addr /\
    m_size al = Malloc_allocation_size size alignment /\
    m_permissions al = permissions /\
    m_alignment al = alignment /\
    m_leak al = false.
Proof.
  unfold Malloc. intros H.
  assert (exists raw pol self1,
    Malloc_record raw (Malloc_allocation_size size alignment) alignment permissions pol self1
      = (addr, Success, self')) as (raw & pol & self1 & Hrec).
  { destruct policy; try done.
    - apply Malloc_host_success in H as (raw & self1 & _ & _ & Hrec). eauto.
    - destruct (m_process_wp self) as [p|].
      + destruct (CanJIT p _ && IsAlive p _).
        * apply Malloc_remote_success in H as (raw & call & _ & Hrec). eauto.
        * apply Malloc_host_success in H as (raw & self1 & _ & _ & Hrec). eauto.
      + apply Malloc_host_success in H as (raw & self1 & _ & _ & Hrec). eauto.
    - destruct (m_process_wp self) as [p|]; [|done].
      destruct (CanJIT p _ && IsAlive p _); [|done].
      apply Malloc_remote_success in H as (raw & call & _ & Hrec). eauto. }
  apply Malloc_record_lookup in Hrec as [_ Hl].
  eexists. split; [exact Hl|]. by simpl.
Qed.

(** C1.  For an alignment that is a power of two (it is a [uint8_t], so
    [2^k] with [k < 8]) and a 64-bit size, the allocation that a successful
    [Malloc] records under the address it returns has size: the alignment
    when the size is 0, the size itself when it is a nonzero multiple of
    the alignment, and [(size + alignment) & ~(alignment - 1)] (on 64 bits)
    otherwise; for size 100 and alignment 16 that is 112. *)
Theorem Malloc_recorded_size size k permissions policy zero_memory self addr self' :
  0 <= size < 2 ^ 64 ->
  0 <= k < 8 ->
  Malloc size (2 ^ k) permissions policy zero_memory self = (addr, Success, self') ->
  exists al,
    m_allocations self' !! addr = Some al /\
    (size = 0 -> m_size al = 2 ^ k) /\
    (size <> 0 -> (2 ^ k | size) -> m_size al = size) /\
    (~ (2 ^ k | size) ->
     m_size al = Z.land ((size + 2 ^ k) mod 2 ^ 64) (Z.lnot (2 ^ k - 1))) /\
    (size = 100 -> k = 4 -> m_size al = 112).
Proof.
  intros Hsize Hk HM.
  apply Malloc_success_recorded in HM as (al & Hl & _ & Hs & _).
  destruct (Malloc_allocation_size_pow2 size k Hsize Hk) as (H0 & Hmul & Hpad).
  exists al. rewrite Hs. repeat split; try done.
  intros -> ->. reflexivity.
Qed.

(** The scenario of C1 on a fresh map without a process: size 100 at
    alignment 16 is recorded with size 112. *)
Lemma Malloc_recorded_size_witness :
  exists al,
    m_allocations (Malloc 100 (2 ^ 4) 3 eAllocationPolicyHostOnly true
                     (IRMemoryMap_new None None)).2 !! 0 = Some al /\
    m_size al = 112.
Proof.
  destruct (Malloc_recorded_size 100 4 3 eAllocationPolicyHostOnly true
              (IRMemoryMap_new None None) 0
              (Malloc 100 (2 ^ 4) 3 eAllocationPolicyHostOnly true
                 (IRMemoryMap_new None None)).2)
    as (al & Hl & _ & _ & _ & H112).
  - lia.
  - lia.
  - vm_compute. reflexivity.
  - exists al. split; [exact Hl|]. apply H112; reflexivity.
Defined.

(** ** The ordered queries pick the right keys *)

Section OrderedIndex.

Implicit Types (m : gmap Z Allocation) (ks : list Z) (k addr : Z).

Lemma key_max_None ks : key_max ks = None <-> ks = [].
Proof. destruct ks; simpl; split; congruence. Qed.

Lemma key_min_None ks : key_min ks = None <-> ks = [].
Proof. destruct ks; simpl; split; congruence. Qed.

Lemma key_max_Some ks k :
  key_max ks = Some k <-> k ∈ ks /\ forall k', k' ∈ ks -> k' <= k.
Proof.
  revert k. induction ks as [|k0 ks IH]; intros k; simpl.
  - split; [done|]. intros [H _]. by apply elem_of_nil in H.
  - destruct (key_max ks) as [k1|] eqn:Hmax; simpl.
    + destruct (proj1 (IH k1) eq_refl) as [Hin Hub].
      split.
      * intros [= <-]. split.
        -- apply elem_of_cons. destruct (Z.max_spec k0 k1) as [[_ ->]|[_ ->]]; auto.
        -- intros k' [->|Hk']%elem_of_cons; [lia|]. specialize (Hub _ Hk'). lia.
      * intros [Hk Hub']. f_equal.
        assert (k0 <= k) by (apply Hub', elem_of_cons; auto).
        assert (k1 <= k) by (apply Hub', elem_of_cons; auto).
        apply elem_of_cons in Hk as [Heq|Hk]; [lia|]. specialize (Hub _ Hk). lia.
    + apply key_max_None in Hmax as ->. split.
      * intros [= <-]. split; [apply list_elem_of_singleton; done|].
        intros k' ->%list_elem_of_singleton. lia.
      * intros [->%list_elem_of_singleton _]. done.
Qed.

Lemma key_min_Some ks k :
  key_min ks = Some k <-> k ∈ ks /\ forall k', k' ∈ ks -> k <= k'.
Proof.
  revert k. induction ks as [|k0 ks IH]; intros k; simpl.
  - split; [done|]. intros [H _]. by apply elem_of_nil in H.
  - destruct (key_min ks) as [k1|] eqn:Hmin; simpl.
    + destruct (proj1 (IH k1) eq_refl) as [Hin Hlb].
      split.
      * intros [= <-]. split.
        -- apply elem_of_cons. destruct (Z.min_spec k0 k1) as [[_ ->]|[_ ->]]; auto.
        -- intros k' [->|Hk']%elem_of_cons; [lia|]. specialize (Hlb _ Hk'). lia.
      * intros [Hk Hlb']. f_equal.
        assert (k <= k0) by (apply Hlb', elem_of_cons; auto).
        assert (k <= k1) by (apply Hlb', elem_of_cons; auto).
        apply elem_of_cons in Hk as [Heq|Hk]; [lia|]. specialize (Hlb _ Hk). lia.
    + apply key_min_None in Hmin as ->. split.
      * intros [= <-]. split; [apply list_elem_of_singleton; done|].
        intros k' ->%list_elem_of_singleton. lia.
      * intros [->%list_elem_of_singleton _]. done.
Qed.

Lemma elem_of_alloc_keys m k : k ∈ alloc_keys m <-> is_Some (m !! k).
Proof.
  unfold alloc_keys. rewrite list_elem_of_fmap. split.
  - intros ([k' al] & -> & Hin). apply elem_of_map_to_list in Hin. by exists al.
  - intros [al Hal]. exists (k, al). split; [done|]. by apply elem_of_map_to_list.
Qed.

Lemma alloc_keys_nil m : alloc_keys m = [] <-> m = ∅.
Proof.
  unfold alloc_keys. rewrite <- map_to_list_empty_iff. split.
  - apply fmap_nil_inv.
  - by intros ->.
Qed.

Lemma map_rbegin_None m : map_rbegin m = None <-> m = ∅.
Proof. unfold map_rbegin. rewrite key_max_None. apply alloc_keys_nil. Qed.

Lemma map_begin_None m : map_begin m = None <-> m = ∅.
Proof. unfold map_begin. rewrite key_min_None. apply alloc_keys_nil. Qed.

(** [rbegin()] stands at the greatest key. *)
Lemma map_rbegin_Some m k :
  map_rbegin m = Some k <->
  is_Some (m !! k) /\ forall k', is_Some (m !! k') -> k' <= k.
Proof.
  unfold map_rbegin. rewrite key_max_Some, elem_of_alloc_keys.
  by setoid_rewrite elem_of_alloc_keys.
Qed.

(** [begin()] stands at the least key. *)
Lemma map_begin_Some m k :
  map_begin m = Some k <->
  is_Some (m !! k) /\ forall k', is_Some (m !! k') -> k <= k'.
Proof.
  unfold map_begin. rewrite key_min_Some, elem_of_alloc_keys.
  by setoid_rewrite elem_of_alloc_keys.
Qed.

(** [lower_bound (addr)] stands at the least key that is not below [addr]. *)
Lemma lower_bound_Some m addr k :
  lower_bound m addr = Some k <->
  is_Some (m !! k) /\ addr <= k /\
  forall k', is_Some (m !! k') -> addr <= k' -> k <= k'.
Proof.
  unfold lower_bound. rewrite key_min_Some, list_elem_of_filter, elem_of_alloc_keys.
  setoid_rewrite list_elem_of_filter. setoid_rewrite elem_of_alloc_keys.
  split.
  - intros [[H1 H2] H3]. repeat split; auto.
  - intros (H1 & H2 & H3). repeat split; auto. intros k' [? ?]. auto.
Qed.

Lemma lower_bound_None m addr :
  lower_bound m addr = None <-> forall k', is_Some (m !! k') -> k' < addr.
Proof.
  unfold lower_bound. rewrite key_min_None. split.
  - intros Hnil k' Hk'. destruct (decide (k' < addr)) as [|Hge]; [done|].
    assert (k' ∈ filter (fun x : Z => addr <= x) (alloc_keys m)) as Hin.
    { apply list_elem_of_filter. split; [lia|]. by apply elem_of_alloc_keys. }
    rewrite Hnil in Hin. by apply elem_of_nil in Hin.
  - intros Hall. apply elem_of_nil_inv. intros k' Hin.
    apply list_elem_of_filter in Hin as [Hle Hin%elem_of_alloc_keys].
    specialize (Hall _ Hin). lia.
Qed.

(** Stepping back from [Some k] reaches the greatest key below [k]. *)
Lemma iter_prev_Some m k k0 :
  iter_prev m (Some k) = Some k0 <->
  is_Some (m !! k0) /\ k0 < k /\
  forall k', is_Some (m !! k') -> k' < k -> k' <= k0.
Proof.
  simpl. rewrite key_max_Some, list_elem_of_filter, elem_of_alloc_keys.
  setoid_rewrite list_elem_of_filter. setoid_rewrite elem_of_alloc_keys.
  split.
  - intros [[H1 H2] H3]. repeat split; auto.
  - intros (H1 & H2 & H3). repeat split; auto. intros k' [? ?]. auto.
Qed.

End OrderedIndex.

(** ** FindSpace on the host pseudo-heap *)

Lemma FindSpace_no_remote size zero_memory self :
  size <> 0 -> process_can_allocate self = false ->
  FindSpace size zero_memory self = (FindSpace_host (m_allocations self), self).
Proof.
  intros Hsize Hcan. unfold FindSpace, process_can_allocate in *.
  rewrite decide_False by done.
  destruct (m_process_wp self) as [p|]; [|done]. by rewrite Hcan.
Qed.

Lemma FindSpace_host_empty : FindSpace_host ∅ = 0.
Proof. reflexivity. Qed.

Lemma FindSpace_host_last m a al :
  m !! a = Some al -> (forall k, is_Some (m !! k) -> k <= a) ->
  FindSpace_host m = alignTo (wrap64 (a + m_size al)) 4096.
Proof.
  intros Ha Hmax. unfold FindSpace_host.
  assert (map_rbegin m = Some a) as -> by (apply map_rbegin_Some; eauto).
  by rewrite Ha.
Qed.

(** The answer ignores every entry but the last one. *)
Lemma FindSpace_host_delete_other m a al k :
  m !! a = Some al -> (forall k', is_Some (m !! k') -> k' <= a) -> k <> a ->
  FindSpace_host (delete k m) = FindSpace_host m.
Proof.
  intros Ha Hmax Hne.
  rewrite (FindSpace_host_last m a al) by done.
  apply FindSpace_host_last.
  - by rewrite lookup_delete_ne.
  - intros k' [x Hx]. apply Hmax.
    destruct (decide (k = k')) as [->|]; [by rewrite lookup_delete_eq in Hx|].
    rewrite lookup_delete_ne in Hx by done. eauto.
Qed.

Lemma FindSpace_host_valid m : FindSpace_host m <> LLDB_INVALID_ADDRESS.
Proof.
  unfold FindSpace_host, LLDB_INVALID_ADDRESS.
  destruct (map_rbegin m) as [a|]; [|done].
  destruct (m !! a) as [al|]; [|done].
  pose proof (alignTo_4096_range (wrap64 (a + m_size al))). lia.
Qed.

Lemma FindSpace_host_nonneg m : 0 <= FindSpace_host m.
Proof.
  unfold FindSpace_host.
  destruct (map_rbegin m) as [a|]; [|done].
  destruct (m !! a) as [al|]; [|done].
  pose proof (alignTo_4096_range (wrap64 (a + m_size al))). lia.
Qed.

(** C4, as amended.  With a non-zero size and no process that is there,
    alive and able to JIT, [FindSpace] changes nothing and returns 0 for an
    empty index and otherwise [alignTo (a + s, 4096)], on 64 bits, for the
    entry [(a, s)] with the greatest key (the key is the aligned start).
    The answer depends on that entry alone: erasing any other entry leaves
    it unchanged, and when [a + s + 4095] does not wrap it is at or beyond
    the end of that entry, so no gap below the last entry is handed out. *)
Theorem FindSpace_host_layout size zero_memory self :
  0 < size ->
  process_can_allocate self = false ->
  exists ret,
    FindSpace size zero_memory self = (ret, self) /\
    (m_allocations self = ∅ -> ret = 0) /\
    (forall a al,
       m_allocations self !! a = Some al ->
       (forall k, is_Some (m_allocations self !! k) -> k <= a) ->
       ret = alignTo (wrap64 (a + m_size al)) 4096 /\
       (forall k, k <> a ->
          (FindSpace size zero_memory
             (set_allocations self (delete k (m_allocations self)))).1 = ret) /\
       (0 <= a + m_size al -> a + m_size al + 4095 < 2 ^ 64 -> a + m_size al <= ret)).
Proof.
  intros Hsize Hcan. exists (FindSpace_host (m_allocations self)).
  split; [apply FindSpace_no_remote; [lia|done]|].
  split; [by intros ->|].
  intros a al Ha Hmax. split; [by apply FindSpace_host_last|].
  split.
  - intros k Hk. rewrite FindSpace_no_remote by (done || lia). simpl.
    by apply (FindSpace_host_delete_other _ a al).
  - intros H0 Hnowrap. rewrite (FindSpace_host_last _ a al) by done.
    rewrite wrap64_small by lia.
    pose proof (alignTo_4096_ge (a + m_size al)). lia.
Qed.

Lemma FindSpace_host_layout_witness :
  (FindSpace 112 false (host_mallocs 2 3 false fresh_map)).1 = 8192.
Proof.
  destruct (FindSpace_host_layout 112 false (host_mallocs 2 3 false fresh_map))
    as (ret & Hret & _ & Hlast).
  - lia.
  - reflexivity.
  - rewrite Hret. simpl.
    destruct (Hlast 4096 (Allocation_new 4096 4096 112 3 16 eAllocationPolicyHostOnly))
      as (-> & _).
    + vm_compute. reflexivity.
    + apply (map_rbegin_Some (m_allocations (host_mallocs 2 3 false fresh_map)) 4096).
      vm_compute. reflexivity.
    + reflexivity.
Defined.

(** C4, the counterexample: the space of a freed allocation is handed
    out again when that allocation was the last of the index.  After two
    host-only allocations (at 0 and 0x1000) and [Free (0x1000)], the next
    [FindSpace] answers 0x1000, the start of the range just freed. *)
Lemma FindSpace_reuses_freed_top :
  let s2 := host_mallocs 2 3 false fresh_map in
  let s3 := (Free 4096 s2).2 in
  (m_size <$> m_allocations s2 !! 4096) = Some 112 /\
  (Free 4096 s2).1 = Success /\
  process_can_allocate s3 = false /\
  (FindSpace 112 false s3).1 = 4096.
Proof. vm_compute. repeat split; reflexivity. Qed.

(** ** Four host-only allocations in a row *)

(** C5, as amended.  On a fresh map without a process, successive
    host-only allocations of size 100 at alignment 16 all succeed and
    start at 0, 0x1000, 0x2000 and 0x3000: the fourth begins at
    [alignTo (0x2000 + 112, 4096) = 0x3000]. *)
Theorem four_host_mallocs permissions zero_memory :
  let malloc_after n :=
    (Malloc 100 16 permissions eAllocationPolicyHostOnly zero_memory
       (host_mallocs n permissions zero_memory fresh_map)).1 in
  malloc_after 0%nat = (0, Success) /\
  malloc_after 1%nat = (4096, Success) /\
  malloc_after 2%nat = (8192, Success) /\
  malloc_after 3%nat = (12288, Success) /\
  12288 = alignTo (8192 + Malloc_allocation_size 100 16) 4096.
Proof. vm_compute. repeat split; reflexivity. Qed.

(** C5, the counterexample: the fourth allocation does not start at
    0x1000 (that is where the second one starts). *)
Lemma fourth_host_malloc_not_0x1000 :
  (Malloc 100 16 3 eAllocationPolicyHostOnly true
     (host_mallocs 3 3 true fresh_map)).1 <> (4096, Success) /\
  (Malloc 100 16 3 eAllocationPolicyHostOnly true
     (host_mallocs 3 3 true fresh_map)).1.1 <> 4096.
Proof. vm_compute. split; intros H; discriminate H. Qed.

(** ** The permissions that reach the remote allocator *)

(** C6, as amended.  When a process is there, can JIT and is alive,
    Mirror and ProcessOnly make exactly one allocation call and pass the
    caller's permissions; HostOnly goes through [FindSpace], which makes
    one call (none for a zero allocation size) and passes Readable|Writable
    whatever the caller asked for.  In every other case [Malloc] makes no
    call on the process. *)
Theorem Malloc_remote_permissions size alignment permissions policy zero_memory self :
  let asize := Malloc_allocation_size size alignment in
  let calls' := process_calls (Malloc size alignment permissions policy zero_memory self).2 in
  if process_can_allocate self then
    match policy with
    | eAllocationPolicyMirror | eAllocationPolicyProcessOnly =>
        calls' = process_calls self ++
                 [if zero_memory then CallCallocateMemory asize permissions
                  else CallAllocateMemory asize permissions]
    | eAllocationPolicyHostOnly =>
        calls' = process_calls self ++
                 (if decide (asize = 0) then []
                  else [CallAllocateMemory asize
                          (Z.lor ePermissionsReadable ePermissionsWritable)])
    | eAllocationPolicyInvalid => calls' = process_calls self
    end
  else calls' = process_calls self.
Proof.
  unfold process_can_allocate, Malloc, Malloc_host, Malloc_remote, FindSpace,
    FindSpace_zero_memory_default, Malloc_record.
  set (asize := Malloc_allocation_size size alignment).
  destruct (m_process_wp self) as [p|] eqn:Hp; simpl.
  - destruct (CanJIT p (process_calls self) && IsAlive p (process_calls self)) eqn:Hcan.
    + destruct policy; simpl; rewrite ?Hp, ?Hcan; simpl.
      * done.
      * destruct (decide (asize = 0)); simpl; [by rewrite app_nil_r|].
        destruct (AllocateMemory p _ _ _) as [raw e]. simpl.
        destruct (Error_Success e); simpl; repeat case_decide; done.
      * destruct zero_memory; simpl.
        -- destruct (CallocateMemory p _ _ _) as [raw e]. by destruct (Error_Success e).
        -- destruct (AllocateMemory p _ _ _) as [raw e]. by destruct (Error_Success e).
      * destruct zero_memory; simpl.
        -- destruct (CallocateMemory p _ _ _) as [raw e]. by destruct (Error_Success e).
        -- destruct (AllocateMemory p _ _ _) as [raw e]. by destruct (Error_Success e).
    + destruct policy; simpl; rewrite ?Hp, ?Hcan; simpl; try done.
      * destruct (decide (asize = 0)); simpl; repeat case_decide; done.
      * destruct (decide (asize = 0)); simpl; repeat case_decide; done.
  - destruct policy; simpl; rewrite ?Hp; simpl; try done.
    + destruct (decide (asize = 0)); simpl; repeat case_decide; done.
    + destruct (decide (asize = 0)); simpl; repeat case_decide; done.
Qed.

(** C6, the counterexample: a host-only [Malloc] asking for
    Readable|Writable|Executable (7) on a map whose process can allocate
    reaches [AllocateMemory] with permissions 3. *)
Lemma Malloc_HostOnly_drops_permissions :
  let self := IRMemoryMap_new (Some (stub_process true true [1879048192])) None in
  let r := Malloc 100 16 7 eAllocationPolicyHostOnly false self in
  r.1 = (1879048192, Success) /\
  process_calls r.2 = [CallAllocateMemory 112 3] /\
  CallAllocateMemory 112 3 <> CallAllocateMemory 112 7.
Proof. vm_compute. repeat split; try reflexivity. intros H; discriminate H. Qed.

(** ** Lookups that need no search *)

(** An access that starts at the key of an entry and stays inside it is
    found by the first probe of [FindAllocation]. *)
Lemma FindAllocation_at_key m k al size :
  m !! k = Some al ->
  0 <= k -> 0 < size <= m_size al -> k + m_size al < 2 ^ 64 ->
  FindAllocation m k size = Some k.
Proof.
  intros Hk Hk0 Hsize Hend. unfold FindAllocation.
  rewrite decide_False by (unfold LLDB_INVALID_ADDRESS; lia).
  assert (lower_bound m k = Some k) as ->.
  { apply lower_bound_Some. split; [eauto|]. split; [lia|]. intros; lia. }
  rewrite (proj2 (Z.ltb_ge k k)) by lia.
  unfold FindAllocation_check. rewrite Hk.
  rewrite !wrap64_small by lia.
  rewrite (proj2 (Z.leb_le k k)) by lia.
  by rewrite (proj2 (Z.leb_le (k + size) (k + m_size al))) by lia.
Qed.

Lemma aligned_address_nonneg raw mask : 0 <= Z.land (wrap64 (raw + mask)) (not64 mask).
Proof. apply Z.land_nonneg. left. apply wrap64_range. Qed.

(** ** Mirror without a usable process *)

(** C3.  When no process is there that can JIT and is alive, a Mirror
    [Malloc] whose rounded size is not 0 succeeds exactly as the HostOnly
    one does: the raw address comes from the host pseudo-heap, no call is
    made on the process, and the record stored under the returned address
    has policy HostOnly and a zeroed shadow buffer.  The later operations
    on it take the HostOnly branches: [Free] makes no remote call, and a
    write or read that starts at the allocation goes to the shadow buffer
    only, even if a process object is still there. *)
Theorem Malloc_Mirror_downgrade size alignment permissions zero_memory self :
  process_can_allocate self = false ->
  Malloc_allocation_size size alignment <> 0 ->
  let asize := Malloc_allocation_size size alignment in
  let raw := FindSpace_host (m_allocations self) in
  let mask := wrap64 (alignment - 1) in
  let addr := Z.land (wrap64 (raw + mask)) (not64 mask) in
  let al := Allocation_new raw addr asize permissions alignment eAllocationPolicyHostOnly in
  let self' := set_allocations self (<[addr := al]> (m_allocations self)) in
  Malloc size alignment permissions eAllocationPolicyMirror zero_memory self
    = (addr, Success, self') /\
  Malloc size alignment permissions eAllocationPolicyMirror zero_memory self
    = Malloc size alignment permissions eAllocationPolicyHostOnly zero_memory self /\
  m_allocations self' !! addr = Some al /\
  m_policy al = eAllocationPolicyHostOnly /\
  m_data al = replicate (Z.to_nat asize) x00 /\
  process_calls self' = process_calls self /\
  Free addr self' = (Success, set_allocations self (delete addr (m_allocations self'))) /\
  (forall bytes n, 0 < n <= asize -> addr + asize < 2 ^ 64 ->
     WriteMemory addr bytes n self'
       = (Success, store_shadow addr al 0 bytes n self') /\
     forall buf, ReadMemory buf addr n self' = (memcpy_from (m_data al) 0 n, Success, self')).
Proof.
  intros Hcan Hsize asize raw mask addr al self'.
  assert (Malloc_host asize alignment permissions self = (addr, Success, self')) as Hhost.
  { unfold Malloc_host. rewrite FindSpace_no_remote by done.
    by rewrite decide_False by apply FindSpace_host_valid. }
  assert (Malloc size alignment permissions eAllocationPolicyMirror zero_memory self
          = Malloc_host asize alignment permissions self) as HM.
  { unfold Malloc, process_can_allocate in *. fold asize.
    destruct (m_process_wp self) as [p|]; [|done]. by rewrite Hcan. }
  assert (m_allocations self' !! addr = Some al) as Hlook
    by (simpl; apply lookup_insert_eq).
  split; [by rewrite HM|]. split; [by rewrite HM|].
  split; [done|]. split; [done|]. split; [done|]. split; [done|].
  split.
  - unfold Free. rewrite Hlook. simpl.
    unfold process_can_allocate in Hcan. simpl.
    destruct (m_process_wp self) as [p|]; [|done]. by rewrite Hcan.
  - intros bytes n Hn Hend.
    assert (0 <= addr) as Haddr by apply aligned_address_nonneg.
    assert (FindAllocation (m_allocations self') addr n = Some addr) as Hfind.
    { apply (FindAllocation_at_key _ _ al); simpl; (done || lia). }
    assert (m_data al <> []) as Hdata.
    { simpl. intros Hnil. apply (f_equal length) in Hnil.
      rewrite length_replicate in Hnil. simpl in Hnil. lia. }
    assert (wrap64 (addr - m_process_start al) = 0) as Hoff
      by (simpl; by rewrite Z.sub_diag).
    split.
    + unfold WriteMemory. rewrite Hfind, Hlook, Hoff.
      change (m_policy al) with eAllocationPolicyHostOnly. cbv iota.
      by rewrite decide_False.
    + intros buf. unfold ReadMemory. rewrite Hfind, Hlook, Hoff.
      change (m_policy al) with eAllocationPolicyHostOnly. cbv iota.
      rewrite (proj2 (Z.ltb_ge (m_size al) 0)) by (simpl; lia).
      rewrite decide_False by done.
      rewrite (proj2 (Z.ltb_ge (Z.of_nat (length (m_data al))) (wrap64 (0 + n)))); [done|].
      simpl. rewrite length_replicate, wrap64_small by lia. lia.
Qed.

(** The scenario of the spec: without a process,
    [Malloc (8, 8, RW, Mirror, false)] on a fresh map stores a HostOnly
    record at address 0. *)
Lemma Malloc_Mirror_downgrade_witness :
  Malloc 8 8 3 eAllocationPolicyMirror false fresh_map
    = (0, Success,
       set_allocations fresh_map
         (<[0 := Allocation_new 0 0 8 3 8 eAllocationPolicyHostOnly]> ∅)).
Proof.
  destruct (Malloc_Mirror_downgrade 8 8 3 false fresh_map) as (H & _).
  - reflexivity.
  - vm_compute. intros H; discriminate H.
  - exact H.
Defined.

(** ** The branch without an allocation leaves the index alone *)

Lemma WriteMemory_no_allocation_index addr bytes size self :
  m_allocations (WriteMemory_no_allocation addr bytes size self).2 = m_allocations self.
Proof.
  unfold WriteMemory_no_allocation. by destruct (m_process_wp self).
Qed.

Lemma ReadMemory_no_allocation_index buf addr size self :
  m_allocations (ReadMemory_no_allocation buf addr size self).2 = m_allocations self.
Proof.
  unfold ReadMemory_no_allocation.
  destruct (m_process_wp self); [done|]. by destruct (m_target_wp self).
Qed.

(** ** How the operations change the index *)

Lemma Malloc_record_index raw asize alignment permissions policy self :
  let r := Malloc_record raw asize alignment permissions policy self in
  m_allocations r.2 =
    <[r.1.1 := Allocation_new raw r.1.1 asize permissions alignment policy]>
      (m_allocations self).
Proof. reflexivity. Qed.

Lemma FindSpace_index size zero_memory self :
  m_allocations (FindSpace size zero_memory self).2 = m_allocations self.
Proof.
  unfold FindSpace. destruct (decide (size = 0)); [done|].
  destruct (m_process_wp self) as [p|]; [|done].
  destruct (CanJIT p _ && IsAlive p _); [|done].
  destruct zero_memory; simpl.
  - destruct (CallocateMemory p _ _ _) as [raw e]. by destruct (Error_Success e).
  - destruct (AllocateMemory p _ _ _) as [raw e]. by destruct (Error_Success e).
Qed.

(** [Malloc] either leaves the index alone (and fails) or stores one new
    record under the address it returns. *)
Lemma Malloc_index size alignment permissions policy zero_memory self :
  let r := Malloc size alignment permissions policy zero_memory self in
  m_allocations r.2 = m_allocations self \/
  exists raw pol,
    m_allocations r.2 =
      <[r.1.1 := Allocation_new raw r.1.1 (Malloc_allocation_size size alignment)
                   permissions alignment pol]> (m_allocations self).
Proof.
  unfold Malloc. set (asize := Malloc_allocation_size size alignment).
  assert (forall s,
    m_allocations s = m_allocations self ->
    let r := Malloc_host asize alignment permissions s in
    m_allocations r.2 = m_allocations self \/
    exists raw pol,
      m_allocations r.2 =
        <[r.1.1 := Allocation_new raw r.1.1 asize permissions alignment pol]>
          (m_allocations self)) as Hhost.
  { intros s Hs. unfold Malloc_host.
    pose proof (FindSpace_index asize FindSpace_zero_memory_default s) as Hfs.
    destruct (FindSpace asize FindSpace_zero_memory_default s) as [raw s1].
    simpl in Hfs. destruct (decide (raw = LLDB_INVALID_ADDRESS)); simpl.
    - left. congruence.
    - right. exists raw, eAllocationPolicyHostOnly. by rewrite Hfs, Hs. }
  assert (forall p pol,
    let r := Malloc_remote p asize alignment permissions pol zero_memory self in
    m_allocations r.2 = m_allocations self \/
    exists raw pol,
      m_allocations r.2 =
        <[r.1.1 := Allocation_new raw r.1.1 asize permissions alignment pol]>
          (m_allocations self)) as Hremote.
  { intros p pol. unfold Malloc_remote. destruct zero_memory; simpl.
    - destruct (CallocateMemory p _ _ _) as [raw e].
      destruct (Error_Success e); simpl; [right; by exists raw, pol|by left].
    - destruct (AllocateMemory p _ _ _) as [raw e].
      destruct (Error_Success e); simpl; [right; by exists raw, pol|by left]. }
  destruct policy.
  - by left.
  - by apply Hhost.
  - destruct (m_process_wp self) as [p|]; [|by apply Hhost].
    destruct (CanJIT p _ && IsAlive p _); [apply Hremote|by apply Hhost].
  - destruct (m_process_wp self) as [p|]; [|by left].
    destruct (CanJIT p _ && IsAlive p _); [apply Hremote|by left].
Qed.

Lemma Free_index addr self :
  m_allocations (Free addr self).2 = delete addr (m_allocations self).
Proof.
  unfold Free. destruct (m_allocations self !! addr) as [al|] eqn:Hal; simpl.
  - destruct (m_policy al); destruct (m_process_wp self) as [p|]; try done;
      by destruct (CanJIT p _ && IsAlive p _).
  - symmetry. by apply delete_id.
Qed.

Lemma Leak_index addr self :
  m_allocations (Leak addr self).2 =
    match m_allocations self !! addr with
    | Some al => <[addr := Allocation_set_leak al]> (m_allocations self)
    | None => m_allocations self
    end.
Proof. unfold Leak. by destruct (m_allocations self !! addr). Qed.

(** [WriteMemory] changes at most the shadow bytes of one entry, and keeps
    the length of its buffer when the range lies inside it. *)
Lemma WriteMemory_index addr bytes size self :
  let r := WriteMemory addr bytes size self in
  m_allocations r.2 = m_allocations self \/
  exists k al,
    FindAllocation (m_allocations self) addr size = Some k /\
    m_allocations self !! k = Some al /\
    m_policy al <> eAllocationPolicyProcessOnly /\
    m_allocations r.2 =
      <[k := Allocation_set_data al
               (memcpy_into (m_data al) (wrap64 (addr - m_process_start al)) bytes size)]>
        (m_allocations self).
Proof.
  unfold WriteMemory.
  destruct (FindAllocation (m_allocations self) addr size) as [k|] eqn:Hfind;
    [|left; apply WriteMemory_no_allocation_index].
  destruct (m_allocations self !! k) as [al|] eqn:Hal;
    [|left; apply WriteMemory_no_allocation_index].
  destruct (m_policy al) eqn:Hpol; simpl.
  - by left.
  - destruct (decide (m_data al = [])); [by left|].
    right. exists k, al. rewrite Hpol. by repeat split.
  - destruct (decide (m_data al = [])); [by left|].
    right. exists k, al. rewrite Hpol. repeat split; try done.
    by destruct (m_process_wp self).
  - left. by destruct (m_process_wp self).
Qed.

Lemma ReadMemory_index buf addr size self :
  m_allocations (ReadMemory buf addr size self).2 = m_allocations self.
Proof.
  unfold ReadMemory.
  destruct (FindAllocation (m_allocations self) addr size) as [k|];
    [|apply ReadMemory_no_allocation_index].
  destruct (m_allocations self !! k) as [al|];
    [|apply ReadMemory_no_allocation_index].
  destruct (m_size al <? _); [done|].
  destruct (m_policy al); simpl; try done.
  - destruct (decide (m_data al = [])); [done|]. by destruct (_ <? _).
  - destruct (m_process_wp self); [done|]. by destruct (decide (m_data al = [])).
  - by destruct (m_process_wp self).
Qed.

(** ** The index is keyed by the aligned start *)

Lemma keyed_by_start_empty : keyed_by_start ∅.
Proof. intros k al H. by rewrite lookup_empty in H. Qed.

Lemma keyed_by_start_insert m k al :
  keyed_by_start m -> m_process_start al = k -> keyed_by_start (<[k := al]> m).
Proof.
  intros Hm Hal k' al' [[<- <-]|[_ H]]%lookup_insert_Some; [done|by apply Hm].
Qed.

Lemma keyed_by_start_delete m k : keyed_by_start m -> keyed_by_start (delete k m).
Proof. intros Hm k' al' [_ H]%lookup_delete_Some. by apply Hm. Qed.

(** Every operation keeps the index keyed by the aligned start. *)
Lemma keyed_by_start_step op self :
  keyed_by_start (m_allocations self) -> keyed_by_start (m_allocations (step self op)).
Proof.
  intros Hm. destruct op as [size alignment permissions policy zero_memory
                            |addr|addr|addr bytes size|buf addr size]; simpl.
  - destruct (Malloc_index size alignment permissions policy zero_memory self)
      as [->|(raw & pol & ->)]; [done|].
    by apply keyed_by_start_insert.
  - rewrite Free_index. by apply keyed_by_start_delete.
  - rewrite Leak_index. destruct (m_allocations self !! addr) as [al|] eqn:Hal; [|done].
    apply keyed_by_start_insert; [done|]. simpl. by apply Hm.
  - destruct (WriteMemory_index addr bytes size self)
      as [->|(k & al & _ & Hal & _ & ->)]; [done|].
    apply keyed_by_start_insert; [done|]. simpl. by apply Hm.
  - by rewrite ReadMemory_index.
Qed.

Lemma keyed_by_start_run ops self :
  keyed_by_start (m_allocations self) -> keyed_by_start (m_allocations (run ops self)).
Proof.
  revert self. induction ops as [|op ops IH]; intros self Hm; [done|].
  simpl. apply IH. by apply keyed_by_start_step.
Qed.

(** ** Free *)

Lemma Free_not_found addr self :
  m_allocations self !! addr = None -> Free addr self = (err_free_not_found, self).
Proof. intros H. unfold Free. by rewrite H. Qed.

(** C8.  [Free] looks the address up as a key of the index, and the key
    of an entry is its aligned start.  If no allocation has that aligned
    start, [Free] fails with "allocation doesn't exist" and the map (and
    the call log) is unchanged.  If the entry exists with policy
    ProcessOnly and the process is there, [Free] succeeds, makes exactly
    one remote call, [DeallocateMemory] on the raw start of the entry, and
    erases the entry; the same [Free] right afterwards fails with
    "allocation doesn't exist". *)
Theorem Free_exact_lookup addr self :
  keyed_by_start (m_allocations self) ->
  ((forall k al, m_allocations self !! k = Some al -> m_process_start al <> addr) ->
   Free addr self = (err_free_not_found, self)) /\
  (forall al p,
     m_allocations self !! addr = Some al ->
     m_policy al = eAllocationPolicyProcessOnly ->
     m_process_wp self = Some p ->
     let self' :=
       log_call (set_allocations self (delete addr (m_allocations self)))
                (CallDeallocateMemory (m_process_alloc al)) in
     Free addr self = (Success, self') /\
     process_calls self' = process_calls self ++ [CallDeallocateMemory (m_process_alloc al)] /\
     m_allocations self' = delete addr (m_allocations self) /\
     Free addr self' = (err_free_not_found, self')).
Proof.
  intros Hkeyed. split.
  - intros Hnone. apply Free_not_found.
    destruct (m_allocations self !! addr) as [al|] eqn:Hal; [|done].
    exfalso. apply (Hnone addr al Hal). by apply Hkeyed.
  - intros al p Hal Hpol Hp self'. split; [|split; [done|split; [done|]]].
    + unfold Free. by rewrite Hal, Hpol, Hp.
    + apply Free_not_found. simpl. apply lookup_delete_eq.
Qed.

(** The scenario of the spec: a ProcessOnly allocation obtained from a
    remote that allocates at 0x70000000 is freed once on the remote, and a
    second [Free] does not find it. *)
Lemma Free_exact_lookup_witness :
  let self :=
    (Malloc 32 8 7 eAllocationPolicyProcessOnly true
       (IRMemoryMap_new (Some (stub_process true true [1879048192])) None)).2 in
  let self' := (Free 1879048192 self).2 in
  process_calls self' = [CallCallocateMemory 32 7; CallDeallocateMemory 1879048192] /\
  Free 1879048192 self' = (err_free_not_found, self').
Proof.
  intros self self'.
  destruct (Free_exact_lookup 1879048192 self) as [_ H].
  - apply (keyed_by_start_step (OpMalloc 32 8 7 eAllocationPolicyProcessOnly true)).
    apply keyed_by_start_empty.
  - destruct (H (Allocation_new 1879048192 1879048192 32 7 8 eAllocationPolicyProcessOnly)
                (stub_process true true [1879048192]))
      as (HF & Hcalls & _ & Hagain).
    + vm_compute. reflexivity.
    + reflexivity.
    + reflexivity.
    + unfold self'. rewrite HF. simpl. split; [reflexivity|]. exact Hagain.
Defined.

(** ** The sentinel address *)

(** C10.  Whatever the size and the state of the map, the containment
    lookup at [LLDB_INVALID_ADDRESS] finds no allocation and
    [IntersectsAllocation] answers false there; [WriteMemory] and
    [ReadMemory] at that address are the no-allocation branch (forward to
    the process, else to the target for reads, else fail) and leave the
    index as it was. *)
Theorem sentinel_not_in_index size self bytes buf :
  FindAllocation (m_allocations self) LLDB_INVALID_ADDRESS size = None /\
  IntersectsAllocation (m_allocations self) LLDB_INVALID_ADDRESS size = false /\
  WriteMemory LLDB_INVALID_ADDRESS bytes size self
    = WriteMemory_no_allocation LLDB_INVALID_ADDRESS bytes size self /\
  ReadMemory buf LLDB_INVALID_ADDRESS size self
    = ReadMemory_no_allocation buf LLDB_INVALID_ADDRESS size self /\
  m_allocations (WriteMemory LLDB_INVALID_ADDRESS bytes size self).2 = m_allocations self /\
  m_allocations (ReadMemory buf LLDB_INVALID_ADDRESS size self).2 = m_allocations self.
Proof.
  assert (FindAllocation (m_allocations self) LLDB_INVALID_ADDRESS size = None) as Hfind
    by (unfold FindAllocation;
        by destruct (decide (LLDB_INVALID_ADDRESS = LLDB_INVALID_ADDRESS))).
  assert (WriteMemory LLDB_INVALID_ADDRESS bytes size self
          = WriteMemory_no_allocation LLDB_INVALID_ADDRESS bytes size self) as HW
    by (unfold WriteMemory; by rewrite Hfind).
  assert (ReadMemory buf LLDB_INVALID_ADDRESS size self
          = ReadMemory_no_allocation buf LLDB_INVALID_ADDRESS size self) as HR
    by (unfold ReadMemory; by rewrite Hfind).
  split; [done|]. split.
  { unfold IntersectsAllocation.
    by destruct (decide (LLDB_INVALID_ADDRESS = LLDB_INVALID_ADDRESS)). }
  split; [done|]. split; [done|]. split.
  - rewrite HW. apply WriteMemory_no_allocation_index.
  - rewrite HR. apply ReadMemory_no_allocation_index.
Qed.

(** ** Writing to and reading from a shadow buffer *)

Lemma length_memcpy_into dst offset src size :
  0 <= offset -> 0 <= size ->
  offset + size <= Z.of_nat (length dst) -> size <= Z.of_nat (length src) ->
  length (memcpy_into dst offset src size) = length dst.
Proof.
  intros Ho Hs Hd Hsrc. unfold memcpy_into.
  rewrite !length_app, !length_take, length_drop. lia.
Qed.

Lemma memcpy_from_into dst offset src size :
  0 <= offset -> offset <= Z.of_nat (length dst) -> Z.of_nat (length src) = size ->
  memcpy_from (memcpy_into dst offset src size) offset size = src.
Proof.
  intros Ho Hd Hsrc. unfold memcpy_from, memcpy_into.
  rewrite drop_app_length' by (rewrite length_take; lia).
  rewrite (take_ge src) by lia.
  rewrite take_app_length' by lia. done.
Qed.

(** ** The containment lookup on a well-formed index *)

Section Containment.

Context (m : gmap Z Allocation).
Context (Hkeyed : keyed_by_start m) (Hspace : in_address_space m)
        (Hdisjoint : disjoint_allocations m).

(** Between the start of an entry and an address inside it there is no
    other key. *)
Lemma no_key_inside k al addr k' :
  m !! k = Some al -> k <= addr < k + m_size al ->
  is_Some (m !! k') -> k < k' -> addr < k'.
Proof using Hkeyed Hspace Hdisjoint.
  intros Hk Haddr [al' Hk'] Hlt.
  destruct (decide (addr < k')) as [|Hge]; [done|]. exfalso.
  assert (k <> k') as Hne by lia.
  pose proof (Hdisjoint k al k' al' Hk Hk' Hne) as Hdis.
  rewrite (Hkeyed _ _ Hk), (Hkeyed _ _ Hk') in Hdis.
  destruct (Hspace _ _ Hk) as (? & ? & ?). destruct (Hspace _ _ Hk') as (? & ? & ?).
  unfold AllocationsIntersect in Hdis. rewrite !wrap64_small in Hdis by lia.
  apply andb_false_iff in Hdis as [Hdis|Hdis]; apply Z.ltb_ge in Hdis; lia.
Qed.

Lemma FindAllocation_check_inside k al addr size :
  m !! k = Some al -> k <= addr -> 0 < size -> addr + size <= k + m_size al ->
  FindAllocation_check m (Some k) addr size = Some k.
Proof using Hspace.
  intros Hk Hle Hsize Hend. destruct (Hspace _ _ Hk) as (? & ? & ?).
  unfold FindAllocation_check. rewrite Hk, !wrap64_small by lia.
  rewrite (proj2 (Z.leb_le k addr)) by done.
  by rewrite (proj2 (Z.leb_le (addr + size) (k + m_size al))) by done.
Qed.

(** The two probes of [FindAllocation] find the entry that contains the
    range. *)
Lemma FindAllocation_containing k al addr size :
  m !! k = Some al -> k <= addr -> 0 < size -> addr + size <= k + m_size al ->
  FindAllocation m addr size = Some k.
Proof using Hkeyed Hspace Hdisjoint.
  intros Hk Hle Hsize Hend. destruct (Hspace _ _ Hk) as (Hk0 & Hpos & Htop).
  assert (forall k', is_Some (m !! k') -> k < k' -> addr < k') as Hgap.
  { intros k' Hk' Hlt. apply (no_key_inside k al); (done || lia). }
  unfold FindAllocation.
  rewrite decide_False by (unfold LLDB_INVALID_ADDRESS; lia).
  destruct (lower_bound m addr) as [k2|] eqn:Hlb.
  - apply lower_bound_Some in Hlb as (Hin2 & Hle2 & Hmin2).
    destruct (decide (k2 = addr)) as [->|Hne2].
    + assert (addr = k) as ->.
      { destruct (decide (k < addr)) as [Hlt|]; [|lia].
        specialize (Hgap _ Hin2 Hlt). lia. }
      rewrite (proj2 (Z.ltb_ge k k)) by lia.
      by apply (FindAllocation_check_inside k al).
    + rewrite (proj2 (Z.ltb_lt addr k2)) by lia.
      rewrite decide_False.
      2:{ intros Hbegin. symmetry in Hbegin.
          apply map_begin_Some in Hbegin as [_ Hmin].
          assert (k2 <= k) by (apply Hmin; eauto). lia. }
      assert (iter_prev m (Some k2) = Some k) as ->.
      { apply iter_prev_Some. split; [eauto|]. split; [lia|].
        intros k' Hk' Hlt'. destruct (decide (k' <= k)) as [|Hgt]; [done|].
        assert (addr < k') by (apply Hgap; [done|lia]).
        assert (k2 <= k') by (apply Hmin2; [done|lia]). lia. }
      by apply (FindAllocation_check_inside k al).
  - pose proof (proj1 (lower_bound_None m addr) Hlb) as Hall.
    rewrite decide_False.
    2:{ intros Hbegin. symmetry in Hbegin. apply map_begin_None in Hbegin.
        subst m. by rewrite lookup_empty in Hk. }
    assert (iter_prev m None = Some k) as ->.
    { simpl. apply map_rbegin_Some. split; [eauto|].
      intros k' Hk'. destruct (decide (k' <= k)) as [|Hgt]; [done|].
      assert (addr < k') by (apply Hgap; [done|lia]).
      specialize (Hall _ Hk'). lia. }
    by apply (FindAllocation_check_inside k al).
Qed.

End Containment.

(** Replacing an entry by one with the same start, size, policy and
    buffer length keeps the index well formed. *)
Lemma index_wf_update m k al al' :
  index_wf m -> m !! k = Some al ->
  m_process_start al' = m_process_start al ->
  m_size al' = m_size al ->
  m_policy al' = m_policy al ->
  length (m_data al') = length (m_data al) ->
  index_wf (<[k := al']> m).
Proof.
  intros [Hkeyed Hspace Hshadow Hdis] Hk Hstart Hsize Hpol Hlen. split.
  - intros k1 al1 [[<- <-]|[_ H]]%lookup_insert_Some; [|by apply Hkeyed].
    rewrite Hstart. by apply Hkeyed.
  - intros k1 al1 [[<- <-]|[_ H]]%lookup_insert_Some; [|by apply Hspace].
    rewrite Hsize. by apply Hspace.
  - intros k1 al1 [[<- <-]|[_ H]]%lookup_insert_Some; [|by apply (Hshadow k1)].
    rewrite Hsize, Hlen, Hpol. by apply (Hshadow k).
  - intros k1 al1 k2 al2 [[<- <-]|[_ H1]]%lookup_insert_Some
      [[<- <-]|[_ H2]]%lookup_insert_Some Hne; try done.
    + rewrite Hstart, Hsize. by apply (Hdis k al k2 al2).
    + rewrite Hstart, Hsize. by apply (Hdis k1 al1 k al).
    + by apply (Hdis k1 al1 k2 al2).
Qed.

(** ** Round trip through a host-only allocation *)


(** ** The destructor *)

Lemma Free_found k al p self :
  m_allocations self !! k = Some al -> m_process_wp self = Some p ->
  Free k self =
    (Success,
     set_allocations
       (if Free_deallocates (process_can_allocate self) al
        then log_call self (CallDeallocateMemory (m_process_alloc al))
        else self)
       (delete k (m_allocations self))).
Proof.
  intros Hk Hp. unfold Free, Free_deallocates, process_can_allocate.
  rewrite Hk, Hp.
  destruct (m_policy al); try done;
    by destruct (CanJIT p (process_calls self) && IsAlive p (process_calls self)).
Qed.

Lemma owed_deallocations_empty c : owed_deallocations c ∅ = [].
Proof. unfold owed_deallocations. by rewrite map_to_list_empty. Qed.

(** The deallocations owed by an index are the one owed by any of its
    entries together with those owed by the rest. *)
Lemma owed_deallocations_delete c m k al :
  m !! k = Some al ->
  owed_deallocations c m ≡ₚ
    (if negb (m_leak al) && Free_deallocates c al
     then [CallDeallocateMemory (m_process_alloc al)] else [])
    ++ owed_deallocations c (delete k m).
Proof.
  intros Hk. unfold owed_deallocations.
  rewrite <- (map_to_list_delete m k al Hk) at 1.
  rewrite filter_cons. simpl.
  destruct (negb (m_leak al) && Free_deallocates c al) eqn:Hb.
  - by rewrite decide_True by done.
  - by rewrite decide_False by (by intros ?).
Qed.

Lemma destructor_loop_spec fuel : forall self p,
  m_process_wp self = Some p ->
  deallocation_keeps_flags p ->
  (size (m_allocations self) <= fuel)%nat ->
  exists self' calls,
    destructor_loop fuel self = Some self' /\
    m_allocations self' = ∅ /\
    process_calls self' = process_calls self ++ calls /\
    calls ≡ₚ owed_deallocations (process_can_allocate self) (m_allocations self).
Proof.
  induction fuel as [|fuel IH]; intros self p Hp Hkeep Hsize.
  - assert (m_allocations self = ∅) as Hempty by (apply map_size_empty_inv; lia).
    exists self, []. simpl.
    rewrite (proj2 (map_begin_None _) Hempty), Hempty, app_nil_r.
    by rewrite owed_deallocations_empty.
  - simpl. destruct (map_begin (m_allocations self)) as [k|] eqn:Hbegin.
    2:{ apply map_begin_None in Hbegin. exists self, [].
        rewrite Hbegin, app_nil_r. by rewrite owed_deallocations_empty. }
    apply map_begin_Some in Hbegin as [[al Hk] _]. rewrite Hk.
    assert (size (delete k (m_allocations self)) <= fuel)%nat as Hsize'
      by (rewrite map_size_delete_Some by eauto; lia).
    pose proof (owed_deallocations_delete (process_can_allocate self) _ k al Hk) as Howed.
    destruct (m_leak al) eqn:Hleak; simpl in *.
    + destruct (IH (set_allocations self (delete k (m_allocations self))) p)
        as (self' & calls & Hloop & Hempty & Hcalls & Hperm); try done.
      exists self', calls. by rewrite Howed.
    + rewrite (Free_found k al p) by done. simpl.
      destruct (Free_deallocates (process_can_allocate self) al) eqn:Hfree.
      * destruct (IH (set_allocations
                        (log_call self (CallDeallocateMemory (m_process_alloc al)))
                        (delete k (m_allocations self))) p)
          as (self' & calls & Hloop & Hempty & Hcalls & Hperm); try done.
        exists self', (CallDeallocateMemory (m_process_alloc al) :: calls).
        split; [done|]. split; [done|]. split.
        -- rewrite Hcalls. simpl. by rewrite <- app_assoc.
        -- rewrite Howed. simpl. constructor. rewrite Hperm.
           unfold process_can_allocate. simpl. rewrite Hp.
           by destruct (Hkeep (process_calls self) (m_process_alloc al)) as [-> ->].
      * destruct (IH (set_allocations self (delete k (m_allocations self))) p)
          as (self' & calls & Hloop & Hempty & Hcalls & Hperm); try done.
        exists self', calls. by rewrite Howed.
Qed.

(** C9, as amended.  When the process reference still resolves (and the
    process does not change its answers to CanJIT and IsAlive while memory
    is deallocated), the destructor loop terminates with an empty index,
    and the calls it makes on the process are, up to order, exactly one
    [DeallocateMemory] on the raw start of every entry that is not leaked
    and whose [Free] reaches the remote: every Mirror and ProcessOnly
    entry, and a HostOnly entry only if the process can JIT and is alive.
    Leaked entries are erased without a call. *)
Theorem destructor_frees_unleaked self p :
  m_process_wp self = Some p ->
  deallocation_keeps_flags p ->
  exists self' calls,
    destructor self = Some self' /\
    m_allocations self' = ∅ /\
    process_calls self' = process_calls self ++ calls /\
    calls ≡ₚ owed_deallocations (process_can_allocate self) (m_allocations self) /\
    (forall c, c ∈ calls <->
       exists k al,
         m_allocations self !! k = Some al /\ m_leak al = false /\
         Free_deallocates (process_can_allocate self) al = true /\
         c = CallDeallocateMemory (m_process_alloc al)).
Proof.
  intros Hp Hkeep.
  destruct (destructor_loop_spec (size (m_allocations self)) self p)
    as (self' & calls & Hloop & Hempty & Hcalls & Hperm); try done.
  exists self', calls. unfold destructor. rewrite Hp.
  split; [done|]. split; [done|]. split; [done|]. split; [done|].
  intros c. rewrite Hperm. unfold owed_deallocations.
  rewrite list_elem_of_fmap. split.
  - intros ([k al] & -> & Hin). apply list_elem_of_filter in Hin as [Hb Hin].
    apply elem_of_map_to_list in Hin. simpl in *.
    apply andb_true_iff in Hb as [Hl Hf]. apply negb_true_iff in Hl.
    by exists k, al.
  - intros (k & al & Hk & Hl & Hf & ->). exists (k, al). split; [done|].
    apply list_elem_of_filter. split.
    + simpl. by rewrite Hl, Hf.
    + by apply elem_of_map_to_list.
Qed.

(** Without a process the loop is not entered at all. *)
Lemma destructor_without_process self :
  m_process_wp self = None -> destructor self = Some self.
Proof. intros Hp. unfold destructor. by rewrite Hp. Qed.

Lemma stub_process_keeps_flags can_jit alive blocks :
  deallocation_keeps_flags (stub_process can_jit alive blocks).
Proof. by intros h addr. Qed.

(** A Mirror entry and a leaked ProcessOnly entry, both obtained from a
    remote: destruction deallocates the first one only. *)
Lemma destructor_frees_unleaked_witness :
  let self :=
    run [OpMalloc 8 8 3 eAllocationPolicyMirror false;
         OpMalloc 8 8 3 eAllocationPolicyProcessOnly false;
         OpLeak 4144]
        (IRMemoryMap_new (Some adjacent_blocks_process) None) in
  exists self' calls,
    destructor self = Some self' /\
    m_allocations self' = ∅ /\
    process_calls self' = process_calls self ++ calls /\
    calls ≡ₚ [CallDeallocateMemory 4112].
Proof.
  intros self.
  destruct (destructor_frees_unleaked self adjacent_blocks_process)
    as (self' & calls & Hd & Hempty & Hcalls & Hperm & _).
  - reflexivity.
  - apply stub_process_keeps_flags.
  - exists self', calls. split; [exact Hd|]. split; [exact Hempty|].
    split; [exact Hcalls|]. rewrite Hperm. vm_compute. reflexivity.
Defined.

(** C9, the counterexample: a HostOnly entry that is not leaked, held by
    a map whose process is alive but cannot JIT.  The destructor frees the
    entry and empties the index, and makes no [DeallocateMemory] call. *)
Lemma destructor_HostOnly_no_deallocation :
  let self :=
    run [OpMalloc 100 16 3 eAllocationPolicyHostOnly true]
        (IRMemoryMap_new (Some alive_no_jit_process) None) in
  (m_leak <$> m_allocations self !! 0) = Some false /\
  (m_process_alloc <$> m_allocations self !! 0) = Some 0 /\
  IsAlive alive_no_jit_process (process_calls self) = true /\
  (m_allocations <$> destructor self) = Some ∅ /\
  (process_calls <$> destructor self) = Some [].
Proof. vm_compute. repeat split; reflexivity. Qed.

(** ** Disjointness *)

(** C2, on the failing input.  The remote hands out the adjacent,
    non-overlapping blocks [0x1010, 0x1030) and [0x1030, 0x1040).  The
    first request has alignment 32, so it is recorded as
    [0x1020, 0x1040), 16 bytes beyond the block the remote gave; the
    second is recorded as [0x1030, 0x1040).  The two live allocations
    intersect. *)
Theorem remote_allocations_overlap :
  let self := run two_remote_mallocs (IRMemoryMap_new (Some adjacent_blocks_process) None) in
  AllocationsIntersect 4112 32 4144 16 = false /\
  (exists a1 a2,
     m_allocations self !! 4128 = Some a1 /\
     m_allocations self !! 4144 = Some a2 /\
     (m_process_alloc a1, m_process_start a1, m_size a1) = (4112, 4128, 32) /\
     (m_process_alloc a2, m_process_start a2, m_size a2) = (4144, 4144, 16) /\
     AllocationsIntersect (m_process_start a1) (m_size a1)
                          (m_process_start a2) (m_size a2) = true) /\
  ~ disjoint_allocations (m_allocations self).
Proof.
  intros self.
  assert (m_allocations self !! 4128
          = Some (Allocation_new 4112 4128 32 3 32 eAllocationPolicyProcessOnly)) as H1
    by (vm_compute; reflexivity).
  assert (m_allocations self !! 4144
          = Some (Allocation_new 4144 4144 16 3 1 eAllocationPolicyProcessOnly)) as H2
    by (vm_compute; reflexivity).
  split; [reflexivity|]. split.
  - eexists _, _. split; [exact H1|]. split; [exact H2|]. repeat split.
  - intros Hdis. specialize (Hdis _ _ _ _ H1 H2). simpl in Hdis.
    assert (true = false) as Habs by (apply Hdis; lia). discriminate Habs.
Qed.

(** ** Well-formedness of the index without a process *)

Lemma index_wf_empty : index_wf ∅.
Proof.
  split; intros k al; try (intros ? ? ?); by rewrite lookup_empty.
Qed.

Lemma index_wf_delete m k : index_wf m -> index_wf (delete k m).
Proof.
  intros [Hkeyed Hspace Hshadow Hdis]. split.
  - by apply keyed_by_start_delete.
  - intros k1 al1 [_ H]%lookup_delete_Some. by apply Hspace.
  - intros k1 al1 [_ H]%lookup_delete_Some. by apply (Hshadow k1).
  - intros k1 al1 k2 al2 [_ H1]%lookup_delete_Some [_ H2]%lookup_delete_Some.
    by apply Hdis.
Qed.

(** A new entry that begins at or after the end of every entry of a
    well-formed index keeps it well formed. *)
Lemma index_wf_insert_above m addr al :
  index_wf m ->
  (forall k al', m !! k = Some al' -> k + m_size al' <= addr) ->
  m_process_start al = addr ->
  0 <= addr -> 0 < m_size al -> addr + m_size al < 2 ^ 64 ->
  (m_policy al <> eAllocationPolicyProcessOnly ->
   Z.of_nat (length (m_data al)) = m_size al) ->
  index_wf (<[addr := al]> m).
Proof.
  intros [Hkeyed Hspace Hshadow Hdis] Habove Hstart Haddr Hpos Htop Hdata.
  assert (forall k al', m !! k = Some al' ->
            AllocationsIntersect (m_process_start al') (m_size al') addr (m_size al) = false /\
            AllocationsIntersect addr (m_size al) (m_process_start al') (m_size al') = false)
    as Hnew.
  { intros k al' Hk. destruct (Hspace _ _ Hk) as (? & ? & ?).
    specialize (Habove _ _ Hk). rewrite (Hkeyed _ _ Hk).
    unfold AllocationsIntersect. rewrite !wrap64_small by lia.
    rewrite (proj2 (Z.ltb_ge addr (k + m_size al'))) by lia.
    by rewrite andb_false_r. }
  split.
  - by apply keyed_by_start_insert.
  - intros k1 al1 [[<- <-]|[_ H]]%lookup_insert_Some; [|by apply Hspace].
    done.
  - intros k1 al1 [[<- <-]|[_ H]]%lookup_insert_Some; [done|by apply (Hshadow k1)].
  - intros k1 al1 k2 al2 [[<- <-]|[_ H1]]%lookup_insert_Some
      [[<- <-]|[_ H2]]%lookup_insert_Some Hne; try done.
    + rewrite Hstart. by apply (Hnew k2).
    + rewrite Hstart. by apply (Hnew k1).
    + by apply (Hdis k1 al1 k2 al2).
Qed.

(** In a well-formed index the last entry also ends last. *)
Lemma wf_last_ends_last m a al k al' :
  index_wf m -> m !! a = Some al -> (forall k', is_Some (m !! k') -> k' <= a) ->
  m !! k = Some al' -> k + m_size al' <= a + m_size al.
Proof.
  intros [Hkeyed Hspace _ Hdis] Ha Hmax Hk.
  destruct (decide (k = a)) as [->|Hne]; [by simplify_eq|].
  assert (k <= a) by (apply Hmax; eauto).
  destruct (Hspace _ _ Ha) as (? & ? & ?). destruct (Hspace _ _ Hk) as (? & ? & ?).
  pose proof (Hdis k al' a al Hk Ha Hne) as Hd.
  rewrite (Hkeyed _ _ Hk), (Hkeyed _ _ Ha) in Hd.
  unfold AllocationsIntersect in Hd. rewrite !wrap64_small in Hd by lia.
  apply andb_false_iff in Hd as [Hd|Hd]; apply Z.ltb_ge in Hd; lia.
Qed.

(** The pseudo-heap address lies at or after the end of every entry. *)
Lemma FindSpace_host_above m k al :
  index_wf m -> below_last_page m -> m !! k = Some al ->
  k + m_size al <= FindSpace_host m.
Proof.
  intros Hwf Hpage Hk. unfold FindSpace_host.
  destruct (map_rbegin m) as [a|] eqn:Hlast.
  2:{ apply map_rbegin_None in Hlast. subst m. by rewrite lookup_empty in Hk. }
  apply map_rbegin_Some in Hlast as [[ala Ha] Hmax]. rewrite Ha.
  pose proof (wf_last_ends_last m a ala k al Hwf Ha Hmax Hk).
  destruct (wf_space m Hwf _ _ Ha) as (? & ? & ?). specialize (Hpage _ _ Ha).
  rewrite wrap64_small by lia.
  pose proof (alignTo_4096_ge (a + m_size ala)). lia.
Qed.

Lemma FindSpace_host_page m : (4096 | FindSpace_host m).
Proof.
  unfold FindSpace_host. destruct (map_rbegin m) as [a|]; [|apply Z.divide_0_r].
  destruct (m !! a); [apply alignTo_4096_multiple|apply Z.divide_0_r].
Qed.

(** A page-aligned raw address is already aligned for every alignment
    that fits the [uint8_t] parameter. *)
Lemma aligned_page_address raw k :
  (4096 | raw) -> 0 <= raw < 2 ^ 64 - 4095 -> 0 <= k < 8 ->
  Z.land (wrap64 (raw + wrap64 (2 ^ k - 1))) (not64 (wrap64 (2 ^ k - 1))) = raw.
Proof.
  intros [c Hc] Hraw Hk. pose proof (pow2_alignment_range k Hk).
  rewrite (wrap64_small (2 ^ k - 1)) by lia.
  rewrite wrap64_small by lia.
  rewrite land_not64 by lia.
  rewrite land_lnot_pow2_mask by lia.
  assert (raw = c * 2 ^ (12 - k) * 2 ^ k) as Hraw'.
  { rewrite <- Z.mul_assoc, <- Z.pow_add_r by lia.
    replace (12 - k + k) with 12 by lia. exact Hc. }
  replace (raw + (2 ^ k - 1)) with (2 ^ k - 1 + c * 2 ^ (12 - k) * 2 ^ k) by lia.
  rewrite Z_mod_plus_full, Z.mod_small by lia. lia.
Qed.

Lemma Malloc_allocation_size_bounds size k :
  0 <= size -> size + 2 ^ k < 2 ^ 64 -> 0 <= k < 8 ->
  0 < Malloc_allocation_size size (2 ^ k) <= size + 2 ^ k.
Proof.
  intros Hsize Htop Hk. pose proof (pow2_alignment_range k Hk).
  unfold Malloc_allocation_size.
  rewrite (wrap64_small (2 ^ k - 1)), (wrap64_small (size + 2 ^ k)) by lia.
  rewrite land_pow2_mask, land_not64, land_lnot_pow2_mask by lia.
  pose proof (Z.mod_pos_bound (size + 2 ^ k) (2 ^ k)).
  repeat case_decide; lia.
Qed.

(** A host-only allocation keeps the index well formed. *)
Lemma index_wf_Malloc_host asize k permissions self :
  index_wf (m_allocations self) -> below_last_page (m_allocations self) ->
  process_can_allocate self = false ->
  0 <= k < 8 -> 0 < asize ->
  FindSpace_host (m_allocations self) + asize + 4095 < 2 ^ 64 ->
  index_wf (m_allocations (Malloc_host asize (2 ^ k) permissions self).2) /\
  below_last_page (m_allocations (Malloc_host asize (2 ^ k) permissions self).2).
Proof.
  intros Hwf Hpage Hcan Hk Hpos Htop.
  pose proof (FindSpace_host_nonneg (m_allocations self)) as Hraw0.
  unfold Malloc_host. rewrite FindSpace_no_remote by (done || lia).
  rewrite decide_False by apply FindSpace_host_valid.
  unfold Malloc_record. simpl.
  rewrite aligned_page_address by (done || apply FindSpace_host_page || lia).
  split.
  - apply index_wf_insert_above; simpl; try (done || lia).
    + intros a al Ha. by apply FindSpace_host_above.
    + intros _. rewrite length_replicate. lia.
  - intros a al [[<- <-]|[_ H]]%lookup_insert_Some; [simpl; lia|by apply Hpage].
Qed.

(** What a successful containment lookup has checked. *)
Lemma FindAllocation_Some_inv m addr size k :
  FindAllocation m addr size = Some k ->
  exists al, m !! k = Some al /\ k <= addr /\
             wrap64 (addr + size) <= wrap64 (k + m_size al).
Proof.
  assert (forall iter, FindAllocation_check m iter addr size = Some k ->
            exists al, m !! k = Some al /\ k <= addr /\
                       wrap64 (addr + size) <= wrap64 (k + m_size al)) as Hcheck.
  { intros [k0|]; simpl; [|done].
    destruct (m !! k0) as [al|] eqn:Hk0; [|done].
    destruct (_ && _) eqn:Hb; [|done]. intros [= <-].
    apply andb_true_iff in Hb as [H1%Z.leb_le H2%Z.leb_le]. by exists al. }
  unfold FindAllocation. repeat case_match; try done; apply Hcheck.
Qed.

Lemma step_without_process op self :
  m_process_wp self = None -> m_process_wp (step self op) = None.
Proof.
  intros Hp. destruct op; simpl.
  - unfold Malloc, Malloc_host, FindSpace, Malloc_record. rewrite Hp.
    repeat case_match; simplify_eq; simpl; done.
  - unfold Free. rewrite Hp. repeat case_match; simpl; done.
  - unfold Leak. repeat case_match; simpl; done.
  - unfold WriteMemory, WriteMemory_no_allocation, store_shadow. simpl. rewrite Hp.
    repeat case_match; simpl; done.
  - unfold ReadMemory, ReadMemory_no_allocation. rewrite Hp.
    repeat case_match; simplify_eq; simpl; done.
Qed.

Lemma below_last_page_update m k al al' :
  below_last_page m -> m !! k = Some al -> m_size al' = m_size al ->
  below_last_page (<[k := al']> m).
Proof.
  intros Hpage Hk Hsize k1 al1 [[<- <-]|[_ H]]%lookup_insert_Some; [|by apply Hpage].
  rewrite Hsize. by apply Hpage.
Qed.

(** Without a process, an operation that fits keeps the index well
    formed (hence disjoint) and clear of the last page. *)
Lemma index_wf_step_without_process op self :
  m_process_wp self = None ->
  index_wf (m_allocations self) -> below_last_page (m_allocations self) ->
  op_fits self op ->
  index_wf (m_allocations (step self op)) /\
  below_last_page (m_allocations (step self op)).
Proof.
  intros Hp Hwf Hpage Hfits.
  assert (process_can_allocate self = false) as Hcan
    by (unfold process_can_allocate; by rewrite Hp).
  destruct op as [size alignment permissions policy zero_memory
                 |addr|addr|addr bytes size|buf addr size]; simpl.
  - destruct Hfits as ((k & Hk & ->) & Hsize & Htop).
    pose proof (FindSpace_host_nonneg (m_allocations self)).
    pose proof (pow2_alignment_range k Hk).
    pose proof (Malloc_allocation_size_bounds size k) as Hb.
    unfold Malloc. rewrite Hp.
    destruct policy; try done; apply index_wf_Malloc_host; (done || lia).
  - rewrite Free_index. split; [by apply index_wf_delete|].
    intros k al [_ H]%lookup_delete_Some. by apply Hpage.
  - rewrite Leak_index. destruct (m_allocations self !! addr) as [al|] eqn:Hal; [|done].
    split; [by apply (index_wf_update _ addr al)|by apply (below_last_page_update _ addr al)].
  - destruct (WriteMemory_index addr bytes size self)
      as [->|(k & al & Hfind & Hal & Hpol & ->)]; [done|].
    apply FindAllocation_Some_inv in Hfind as (al0 & Hal0 & Hle & Hend).
    simplify_eq. destruct Hfits as [[Hsize0 Hsrc] Hnowrap].
    destruct (wf_space _ Hwf _ _ Hal0) as (? & ? & ?).
    rewrite !wrap64_small in Hend by lia.
    rewrite (wf_keyed _ Hwf _ _ Hal0), wrap64_small by lia.
    pose proof (wf_shadow _ Hwf _ _ Hal0 Hpol).
    split; [|by apply (below_last_page_update _ k al0)].
    apply (index_wf_update _ k al0); try done.
    simpl. apply length_memcpy_into; lia.
  - by rewrite ReadMemory_index.
Qed.

(** From a fresh map without a process, every sequence of operations
    that fit leaves the live allocations pairwise disjoint. *)
Lemma index_wf_run_without_process ops : forall self,
  m_process_wp self = None ->
  index_wf (m_allocations self) -> below_last_page (m_allocations self) ->
  all_fit ops self ->
  index_wf (m_allocations (run ops self)).
Proof.
  induction ops as [|op ops IH]; intros self Hp Hwf Hpage Hfit; [done|].
  destruct Hfit as [Hop Hrest].
  destruct (index_wf_step_without_process op self) as [Hwf' Hpage']; try done.
  simpl. apply IH; try done. by apply step_without_process.
Qed.

Lemma below_last_page_empty : below_last_page ∅.
Proof. intros k al H. by rewrite lookup_empty in H. Qed.


(** * Further properties of the code *)

(** ** The lookups are exact on a well-formed index *)

(** What a successful lookup has checked, without wrap-around. *)
Lemma FindAllocation_Some_wf m addr size k :
  in_address_space m -> 0 <= size -> addr + size < 2 ^ 64 ->
  FindAllocation m addr size = Some k ->
  exists al, m !! k = Some al /\ k <= addr /\ addr + size <= k + m_size al.
Proof.
  intros Hspace Hsize Htop Hfind.
  apply FindAllocation_Some_inv in Hfind as (al & Hk & Hle & Hend).
  destruct (Hspace _ _ Hk) as (? & ? & ?).
  rewrite !wrap64_small in Hend by lia. by exists al.
Qed.

(** Two entries of a well-formed index that contain the same address are
    the same entry. *)
Lemma containing_entry_unique m k1 al1 k2 al2 addr :
  index_wf m ->
  m !! k1 = Some al1 -> k1 <= addr < k1 + m_size al1 ->
  m !! k2 = Some al2 -> k2 <= addr < k2 + m_size al2 ->
  k1 = k2.
Proof.
  intros [Hkeyed Hspace _ Hdis] H1 Ha1 H2 Ha2.
  destruct (Z.lt_trichotomy k1 k2) as [Hlt|[Heq|Hgt]]; [|done|].
  - pose proof (no_key_inside m Hkeyed Hspace Hdis k1 al1 addr k2 H1 Ha1
                  (ex_intro _ al2 H2) Hlt). lia.
  - pose proof (no_key_inside m Hkeyed Hspace Hdis k2 al2 addr k1 H2 Ha2
                  (ex_intro _ al1 H1) Hgt). lia.
Qed.

(** X1.  On a well-formed index and for a non-empty range that does not
    wrap, [FindAllocation] returns the key of an entry exactly when that
    entry contains the whole range, and returns [end()] exactly when no
    entry does; at most one entry can. *)
Theorem FindAllocation_exact m addr size :
  index_wf m -> 0 < size -> addr + size < 2 ^ 64 ->
  (forall k,
     FindAllocation m addr size = Some k <->
     exists al, m !! k = Some al /\ k <= addr /\ addr + size <= k + m_size al) /\
  (FindAllocation m addr size = None <->
   forall k al, m !! k = Some al -> ~ (k <= addr /\ addr + size <= k + m_size al)).
Proof.
  intros Hwf Hsize Htop. pose proof Hwf as [Hkeyed Hspace _ Hdis].
  assert (forall k,
     FindAllocation m addr size = Some k <->
     exists al, m !! k = Some al /\ k <= addr /\ addr + size <= k + m_size al) as Hiff.
  { intros k. split.
    - apply FindAllocation_Some_wf; (done || lia).
    - intros (al & Hk & Hle & Hend).
      by apply (FindAllocation_containing m Hkeyed Hspace Hdis k al). }
  split; [done|]. split.
  - intros Hnone k al Hk [Hle Hend].
    assert (FindAllocation m addr size = Some k) as Hsome by (apply Hiff; eauto).
    congruence.
  - intros Hno. destruct (FindAllocation m addr size) as [k|] eqn:Hfind; [|done].
    destruct (proj1 (Hiff k) eq_refl) as (al & Hk & Hle & Hend).
    by destruct (Hno k al Hk).
Qed.

(** The index after two host-only allocations on a fresh map. *)
Lemma two_host_mallocs_wf :
  index_wf (m_allocations (host_mallocs 2 3 false fresh_map)).
Proof.
  apply (index_wf_run_without_process
           [OpMalloc 100 16 3 eAllocationPolicyHostOnly false;
            OpMalloc 100 16 3 eAllocationPolicyHostOnly false] fresh_map).
  - reflexivity.
  - apply index_wf_empty.
  - apply below_last_page_empty.
  - simpl. repeat split; try (exists 4; split; [lia|reflexivity]); try lia;
      vm_compute; reflexivity.
Qed.

Lemma two_host_mallocs_second :
  m_allocations (host_mallocs 2 3 false fresh_map) !! 4096
    = Some (Allocation_new 4096 4096 112 3 16 eAllocationPolicyHostOnly).
Proof. vm_compute. reflexivity. Qed.

Lemma FindAllocation_exact_witness :
  FindAllocation (m_allocations (host_mallocs 2 3 false fresh_map)) 4100 100 = Some 4096.
Proof.
  destruct (FindAllocation_exact _ 4100 100 two_host_mallocs_wf) as [Hsome _]; [lia|lia|].
  apply Hsome. exists (Allocation_new 4096 4096 112 3 16 eAllocationPolicyHostOnly).
  split; [apply two_host_mallocs_second|]. simpl. lia.
Defined.

(** One probe of [IntersectsAllocation] that answers true has found an
    entry that meets the range. *)
Lemma iter_intersects_true m iter addr size :
  index_wf m -> 0 <= addr -> 0 < size -> addr + size < 2 ^ 64 ->
  iter_intersects m iter addr size = true ->
  exists k al, m !! k = Some al /\ k < addr + size /\ addr < k + m_size al.
Proof.
  intros [Hkeyed Hspace _ _] Haddr Hsize Htop.
  destruct iter as [k|]; simpl; [|done].
  destruct (m !! k) as [al|] eqn:Hk; [|done].
  destruct (Hspace _ _ Hk) as (? & ? & ?).
  unfold AllocationsIntersect. rewrite (Hkeyed _ _ Hk), !wrap64_small by lia.
  intros [Hi1%Z.ltb_lt Hi2%Z.ltb_lt]%andb_true_iff. by exists k, al.
Qed.

Lemma iter_intersects_entry m k al addr size :
  index_wf m -> 0 <= addr -> 0 < size -> addr + size < 2 ^ 64 ->
  m !! k = Some al -> k < addr + size -> addr < k + m_size al ->
  iter_intersects m (Some k) addr size = true.
Proof.
  intros [Hkeyed Hspace _ _] Haddr Hsize Htop Hk H1 H2. simpl. rewrite Hk.
  destruct (Hspace _ _ Hk) as (? & ? & ?).
  unfold AllocationsIntersect. rewrite (Hkeyed _ _ Hk), !wrap64_small by lia.
  apply andb_true_iff. split; by apply Z.ltb_lt.
Qed.

(** X2.  On a well-formed index and for a non-empty range that does not
    wrap, the two probes of [IntersectsAllocation] are exhaustive: it
    answers true exactly when some entry meets the range. *)
Theorem IntersectsAllocation_exact m addr size :
  index_wf m -> 0 <= addr -> 0 < size -> addr + size < 2 ^ 64 ->
  IntersectsAllocation m addr size = true <->
  exists k al, m !! k = Some al /\ k < addr + size /\ addr < k + m_size al.
Proof.
  intros Hwf Haddr Hsize Htop. pose proof Hwf as [Hkeyed Hspace _ Hdis].
  unfold IntersectsAllocation.
  rewrite decide_False by (unfold LLDB_INVALID_ADDRESS; lia).
  split.
  - destruct (iter_intersects m (lower_bound m addr) addr size) eqn:Hfirst.
    + intros _. by apply (iter_intersects_true m (lower_bound m addr)).
    + destruct (decide (lower_bound m addr = map_begin m)); [done|].
      by apply iter_intersects_true.
  - intros (k & al & Hk & H1 & H2).
    destruct (Hspace _ _ Hk) as (Hk0 & Hpos & Hend).
    destruct (iter_intersects m (lower_bound m addr) addr size) eqn:Hfirst; [done|].
    destruct (decide (addr <= k)) as [Hge|Hlt].
    + (* the entry starts inside the range: the first probe meets it or an
         earlier one that starts inside the range too *)
      exfalso. destruct (lower_bound m addr) as [k2|] eqn:Hlb.
      * apply lower_bound_Some in Hlb as ([al2 Hk2] & Hle2 & Hmin2).
        assert (k2 <= k) by (apply Hmin2; eauto).
        destruct (Hspace _ _ Hk2) as (? & ? & ?).
        rewrite (iter_intersects_entry m k2 al2) in Hfirst by (done || lia). done.
      * pose proof (proj1 (lower_bound_None m addr) Hlb k (ex_intro _ al Hk)). lia.
    + (* the entry starts before the range: it is the one just before the
         first probe *)
      assert (forall k', is_Some (m !! k') -> k' < addr -> k' <= k) as Hgap.
      { intros k' Hk' Hlt'. destruct (decide (k' <= k)) as [|Hgt]; [done|].
        pose proof (no_key_inside m Hkeyed Hspace Hdis k al k' k' Hk).
        assert (k' < k') by (apply H; (done || lia)). lia. }
      destruct (lower_bound m addr) as [k2|] eqn:Hlb.
      * apply lower_bound_Some in Hlb as (Hin2 & Hle2 & Hmin2).
        rewrite decide_False.
        2:{ intros Hbegin. symmetry in Hbegin.
            apply map_begin_Some in Hbegin as [_ Hmin].
            assert (k2 <= k) by (apply Hmin; eauto). lia. }
        assert (iter_prev m (Some k2) = Some k) as ->.
        { apply iter_prev_Some. split; [eauto|]. split; [lia|].
          intros k' Hk' Hlt'. apply Hgap; [done|].
          destruct (decide (k' < addr)) as [|Hge']; [done|].
          assert (k2 <= k') by (apply Hmin2; [done|lia]). lia. }
        apply (iter_intersects_entry m k al); (done || lia).
      * pose proof (proj1 (lower_bound_None m addr) Hlb) as Hall.
        rewrite decide_False.
        2:{ intros Hbegin. symmetry in Hbegin. apply map_begin_None in Hbegin.
            subst m. by rewrite lookup_empty in Hk. }
        assert (iter_prev m None = Some k) as ->.
        { simpl. apply map_rbegin_Some. split; [eauto|].
          intros k' Hk'. apply Hgap; [done|]. by apply Hall. }
        apply (iter_intersects_entry m k al); (done || lia).
Qed.

Lemma IntersectsAllocation_exact_witness :
  IntersectsAllocation (m_allocations (host_mallocs 2 3 false fresh_map)) 4000 200 = true.
Proof.
  apply (IntersectsAllocation_exact _ 4000 200 two_host_mallocs_wf); [lia|lia|lia|].
  exists 4096, (Allocation_new 4096 4096 112 3 16 eAllocationPolicyHostOnly).
  split; [apply two_host_mallocs_second|]. simpl. lia.
Defined.

(** ** GetAllocSize *)






(** ** Malloc: alignment of the returned address, and failure *)

(** A successful [Malloc] has gone through lines 322-330 with some raw
    address, on a state with the index it started from. *)
Lemma Malloc_success_inv size alignment permissions policy zero_memory self addr self' :
  Malloc size alignment permissions policy zero_memory self = (addr, Success, self') ->
  exists raw pol self1,
    m_allocations self1 = m_allocations self /\
    Malloc_record raw (Malloc_allocation_size size alignment) alignment permissions pol self1
      = (addr, Success, self').
Proof.
  unfold Malloc. intros H.
  assert (forall asize, Malloc_host asize alignment permissions self = (addr, Success, self') ->
    exists raw pol self1, m_allocations self1 = m_allocations self /\
      Malloc_record raw asize alignment permissions pol self1 = (addr, Success, self'))
    as Hhost.
  { intros asize (raw & self1 & Hfs & _ & Hrec)%Malloc_host_success.
    exists raw, eAllocationPolicyHostOnly, self1. split; [|done].
    pose proof (FindSpace_index asize FindSpace_zero_memory_default self) as Hi.
    by rewrite Hfs in Hi. }
  assert (forall p asize pol,
    Malloc_remote p asize alignment permissions pol zero_memory self = (addr, Success, self') ->
    exists raw pol self1, m_allocations self1 = m_allocations self /\
      Malloc_record raw asize alignment permissions pol self1 = (addr, Success, self'))
    as Hremote.
  { intros p asize pol (raw & call & _ & Hrec)%Malloc_remote_success.
    by exists raw, pol, (log_call self call). }
  destruct policy; try done.
  - by apply Hhost.
  - destruct (m_process_wp self) as [p|]; [|by apply Hhost].
    destruct (CanJIT p _ && IsAlive p _); [by apply (Hremote p _ eAllocationPolicyMirror)|].
    by apply Hhost.
  - destruct (m_process_wp self) as [p|]; [|done].
    destruct (CanJIT p _ && IsAlive p _); [|done].
    by apply (Hremote p _ eAllocationPolicyProcessOnly).
Qed.

(** X5.  For a power-of-two alignment, the address a successful [Malloc]
    returns is a multiple of the alignment; and unless rounding the raw
    address up wraps around 2^64, it is the first such address at or after
    the raw address recorded in the entry (less than one alignment above
    it). *)
Theorem Malloc_aligned size k permissions policy zero_memory self addr self' :
  0 <= k < 8 ->
  Malloc size (2 ^ k) permissions policy zero_memory self = (addr, Success, self') ->
  exists al,
    m_allocations self' !! addr = Some al /\
    m_process_start al = addr /\
    (2 ^ k | addr) /\
    0 <= addr < 2 ^ 64 /\
    (0 <= m_process_alloc al -> m_process_alloc al + 2 ^ k <= 2 ^ 64 ->
     m_process_alloc al <= addr < m_process_alloc al + 2 ^ k).
Proof.
  intros Hk HM. pose proof (pow2_alignment_range k Hk) as Ha.
  apply Malloc_success_inv in HM as (raw & pol & self1 & _ & Hrec).
  pose proof (Malloc_record_lookup _ _ _ _ _ _ _ _ _ Hrec) as [_ Hl].
  exists (Allocation_new raw addr (Malloc_allocation_size size (2 ^ k)) permissions (2 ^ k) pol).
  split; [done|]. split; [done|].
  unfold Malloc_record in Hrec. injection Hrec as Haddr _.
  rewrite (wrap64_small (2 ^ k - 1)) in Haddr by lia.
  rewrite land_not64, land_lnot_pow2_mask in Haddr by (apply wrap64_range || lia).
  pose proof (wrap64_range (raw + (2 ^ k - 1))) as Hx.
  assert (0 <= wrap64 (raw + (2 ^ k - 1)) mod 2 ^ k < 2 ^ k) as Hm
    by (apply Z.mod_pos_bound; lia).
  assert (wrap64 (raw + (2 ^ k - 1))
          = 2 ^ k * (wrap64 (raw + (2 ^ k - 1)) / 2 ^ k)
            + wrap64 (raw + (2 ^ k - 1)) mod 2 ^ k) as Hdm
    by (apply Z.div_mod; lia).
  assert (wrap64 (raw + (2 ^ k - 1)) mod 2 ^ k <= wrap64 (raw + (2 ^ k - 1))) as Hle
    by (apply Z.mod_le; lia).
  split; [|split].
  - exists (wrap64 (raw + (2 ^ k - 1)) / 2 ^ k). lia.
  - clear Hdm. lia.
  - simpl. intros Hraw Htop. clear Hdm. rewrite wrap64_small in * by lia. lia.
Qed.

Lemma Malloc_aligned_witness :
  exists al,
    m_allocations (Malloc 16 (2 ^ 5) 3 eAllocationPolicyProcessOnly false
                     (IRMemoryMap_new (Some adjacent_blocks_process) None)).2 !! 4128
      = Some al /\
    m_process_alloc al = 4112.
Proof.
  destruct (Malloc_aligned 16 5 3 eAllocationPolicyProcessOnly false
              (IRMemoryMap_new (Some adjacent_blocks_process) None) 4128
              (Malloc 16 (2 ^ 5) 3 eAllocationPolicyProcessOnly false
                 (IRMemoryMap_new (Some adjacent_blocks_process) None)).2)
    as (al & Hl & _).
  - lia.
  - vm_compute. reflexivity.
  - exists al. split; [exact Hl|].
    revert Hl. vm_compute. intros [= <-]. reflexivity.
Defined.

(** X6.  Whenever [Malloc] reports an error it returns
    [LLDB_INVALID_ADDRESS] and the index is exactly as before: no record
    is stored on any failing path. *)
Theorem Malloc_failure_atomic size alignment permissions policy zero_memory self :
  (Malloc size alignment permissions policy zero_memory self).1.2 <> Success ->
  (Malloc size alignment permissions policy zero_memory self).1.1 = LLDB_INVALID_ADDRESS /\
  m_allocations (Malloc size alignment permissions policy zero_memory self).2
    = m_allocations self.
Proof.
  unfold Malloc. set (asize := Malloc_allocation_size size alignment).
  assert (let r := Malloc_host asize alignment permissions self in
          r.1.2 <> Success -> r.1.1 = LLDB_INVALID_ADDRESS /\
          m_allocations r.2 = m_allocations self) as Hhost.
  { unfold Malloc_host.
    pose proof (FindSpace_index asize FindSpace_zero_memory_default self) as Hfs.
    destruct (FindSpace asize FindSpace_zero_memory_default self) as [raw s1].
    destruct (decide (raw = LLDB_INVALID_ADDRESS)); simpl; [done|].
    by intros H. }
  assert (forall p pol,
          let r := Malloc_remote p asize alignment permissions pol zero_memory self in
          r.1.2 <> Success -> r.1.1 = LLDB_INVALID_ADDRESS /\
          m_allocations r.2 = m_allocations self) as Hremote.
  { intros p pol. unfold Malloc_remote. destruct zero_memory; simpl.
    - destruct (CallocateMemory p _ _ _) as [raw e].
      destruct (Error_Success e); simpl; [by intros H|done].
    - destruct (AllocateMemory p _ _ _) as [raw e].
      destruct (Error_Success e); simpl; [by intros H|done]. }
  destruct policy.
  - done.
  - apply Hhost.
  - destruct (m_process_wp self) as [p|]; [|apply Hhost].
    destruct (CanJIT p _ && IsAlive p _); [apply Hremote|apply Hhost].
  - destruct (m_process_wp self) as [p|]; [|done].
    destruct (CanJIT p _ && IsAlive p _); [apply Hremote|done].
Qed.

(** ProcessOnly without a process: the error, the invalid address, and
    an untouched index. *)
Lemma Malloc_failure_atomic_witness :
  Malloc 8 8 3 eAllocationPolicyProcessOnly false fresh_map
    = (LLDB_INVALID_ADDRESS, err_malloc_no_process, fresh_map) /\
  m_allocations (Malloc 8 8 3 eAllocationPolicyProcessOnly false fresh_map).2 = ∅.
Proof.
  split; [reflexivity|].
  destruct (Malloc_failure_atomic 8 8 3 eAllocationPolicyProcessOnly false fresh_map)
    as [_ H].
  - simpl. intros Habs. discriminate Habs.
  - exact H.
Defined.

(** ** Leak *)

(** X7.  [Leak] is idempotent: a second [Leak] of the same address gives
    the same result and the same map as the first (the same error if the
    address is not a key, the same leaked entry otherwise). *)
Theorem Leak_idempotent addr self :
  Leak addr (Leak addr self).2 = Leak addr self.
Proof.
  unfold Leak. destruct (m_allocations self !! addr) as [al|] eqn:Hal; simpl.
  - rewrite lookup_insert_eq. f_equal. unfold set_allocations. simpl.
    by rewrite insert_insert_eq.
  - by rewrite Hal.
Qed.

(** X8.  A leaked allocation can still be freed: [Free] after [Leak]
    returns what [Free] alone returns and leaves the same map and the same
    calls on the process. *)
Theorem Free_after_Leak addr self :
  Free addr (Leak addr self).2 = Free addr self.
Proof.
  unfold Leak. destruct (m_allocations self !! addr) as [al|] eqn:Hal; simpl; [|done].
  unfold Free. simpl. rewrite lookup_insert_eq, Hal. simpl.
  destruct (m_policy al); destruct (m_process_wp self) as [p|]; simpl;
    try destruct (CanJIT p _ && IsAlive p _); simpl;
    unfold set_allocations, log_call; simpl; by rewrite delete_insert_eq.
Qed.

(** X9.  Leaking an entry takes it out of what the destructor
    deallocates: with a process that resolves, destruction after
    [Leak (addr)] empties the index and makes, up to order, exactly the
    deallocation calls owed by the other entries. *)
Theorem destructor_after_Leak addr al p self :
  m_process_wp self = Some p ->
  deallocation_keeps_flags p ->
  m_allocations self !! addr = Some al ->
  exists self' calls,
    destructor (Leak addr self).2 = Some self' /\
    m_allocations self' = ∅ /\
    process_calls self' = process_calls self ++ calls /\
    calls ≡ₚ owed_deallocations (process_can_allocate self)
               (delete addr (m_allocations self)).
Proof.
  intros Hp Hkeep Hal.
  assert ((Leak addr self).2
          = set_allocations self (<[addr := Allocation_set_leak al]> (m_allocations self)))
    as -> by (unfold Leak; by rewrite Hal).
  destruct (destructor_loop_spec
              (size (<[addr := Allocation_set_leak al]> (m_allocations self)))
              (set_allocations self (<[addr := Allocation_set_leak al]> (m_allocations self)))
              p) as (self' & calls & Hloop & Hempty & Hcalls & Hperm); try done.
  exists self', calls. unfold destructor. simpl. rewrite Hp.
  split; [done|]. split; [done|]. split; [done|].
  rewrite Hperm. simpl.
  rewrite (owed_deallocations_delete _ _ addr (Allocation_set_leak al))
    by apply lookup_insert_eq.
  simpl. by rewrite delete_insert_eq.
Qed.

(** Of a Mirror entry and a leaked ProcessOnly entry, leaking the Mirror
    entry too leaves the destructor nothing to deallocate. *)
Lemma destructor_after_Leak_witness :
  let self :=
    run [OpMalloc 8 8 3 eAllocationPolicyMirror false;
         OpMalloc 8 8 3 eAllocationPolicyProcessOnly false;
         OpLeak 4144]
        (IRMemoryMap_new (Some adjacent_blocks_process) None) in
  exists self',
    destructor (Leak 4112 self).2 = Some self' /\
    m_allocations self' = ∅ /\
    process_calls self' = process_calls self.
Proof.
  intros self.
  destruct (destructor_after_Leak 4112
              (Allocation_new 4112 4112 8 3 8 eAllocationPolicyMirror)
              adjacent_blocks_process self)
    as (self' & calls & Hd & Hempty & Hcalls & Hperm).
  - reflexivity.
  - apply stub_process_keeps_flags.
  - vm_compute. reflexivity.
  - exists self'. split; [exact Hd|]. split; [exact Hempty|].
    rewrite Hcalls.
    assert (calls ≡ₚ []) as Hnil by (rewrite Hperm; vm_compute; reflexivity).
    apply Permutation_nil_r in Hnil. rewrite Hnil. apply app_nil_r.
Defined.

(** ** Free releases what the remote handed out *)

(** X10.  A Mirror or ProcessOnly allocation made through the remote
    allocator is released with the raw address the remote returned, not
    with the aligned address the caller holds: after a successful [Malloc]
    and [Free] of the returned address, the calls added to the log are the
    allocation and one [DeallocateMemory] of the raw address. *)
Theorem Malloc_Free_releases_raw size alignment permissions policy self p raw :
  m_process_wp self = Some p ->
  process_can_allocate self = true ->
  policy = eAllocationPolicyMirror \/ policy = eAllocationPolicyProcessOnly ->
  AllocateMemory p (process_calls self) (Malloc_allocation_size size alignment) permissions
    = (raw, Success) ->
  exists addr self',
    Malloc size alignment permissions policy false self = (addr, Success, self') /\
    addr = Z.land (wrap64 (raw + wrap64 (alignment - 1))) (not64 (wrap64 (alignment - 1))) /\
    (Free addr self').1 = Success /\
    process_calls (Free addr self').2 =
      process_calls self ++
        [CallAllocateMemory (Malloc_allocation_size size alignment) permissions;
         CallDeallocateMemory raw] /\
    m_allocations (Free addr self').2 = delete addr (m_allocations self).
Proof.
  intros Hp Hcan Hpol Halloc. unfold process_can_allocate in Hcan. rewrite Hp in Hcan.
  set (asize := Malloc_allocation_size size alignment) in *.
  set (mask := wrap64 (alignment - 1)).
  set (addr := Z.land (wrap64 (raw + mask)) (not64 mask)).
  set (self1 := log_call self (CallAllocateMemory asize permissions)).
  set (al := Allocation_new raw addr asize permissions alignment policy).
  assert (Malloc size alignment permissions policy false self
          = (addr, Success, set_allocations self1 (<[addr := al]> (m_allocations self))))
    as HM.
  { unfold Malloc. fold asize. rewrite Hp, Hcan.
    destruct Hpol as [-> | ->]; unfold Malloc_remote; simpl; by rewrite Halloc. }
  exists addr, (set_allocations self1 (<[addr := al]> (m_allocations self))).
  split; [done|]. split; [done|].
  rewrite (Free_found addr al p) by (simpl; done || apply lookup_insert_eq).
  assert (Free_deallocates
            (process_can_allocate
               (set_allocations self1 (<[addr := al]> (m_allocations self)))) al = true)
    as -> by (unfold Free_deallocates; simpl; by destruct Hpol as [-> | ->]).
  simpl. split; [done|]. split.
  - by rewrite <- app_assoc.
  - by rewrite delete_insert_eq.
Qed.

Lemma Malloc_Free_releases_raw_witness :
  let self := IRMemoryMap_new (Some adjacent_blocks_process) None in
  process_calls (Free 4128 (Malloc 16 32 3 eAllocationPolicyProcessOnly false self).2).2
    = [CallAllocateMemory 32 3; CallDeallocateMemory 4112].
Proof.
  intros self.
  destruct (Malloc_Free_releases_raw 16 32 3 eAllocationPolicyProcessOnly self
              adjacent_blocks_process 4112)
    as (addr & self' & HM & Haddr & _ & Hcalls & _).
  - reflexivity.
  - reflexivity.
  - right. reflexivity.
  - reflexivity.
  - rewrite HM. simpl. subst addr. exact Hcalls.
Defined.

(** ** Reads and writes inside an entry *)

(** What [WriteMemory] and [ReadMemory] compute on their way to the
    policy switch, for a range inside an entry of a well-formed index. *)
Lemma access_in_entry m k al addr n :
  index_wf m -> m !! k = Some al ->
  k <= addr -> 0 < n -> addr + n <= k + m_size al ->
  FindAllocation m addr n = Some k /\
  wrap64 (addr - m_process_start al) = addr - k /\
  (m_size al <? addr - k) = false.
Proof.
  intros [Hkeyed Hspace _ Hdis] Hk Hle Hn Hend.
  destruct (Hspace _ _ Hk) as (? & ? & ?).
  split; [by apply (FindAllocation_containing m Hkeyed Hspace Hdis k al)|].
  split; [rewrite (Hkeyed _ _ Hk); apply wrap64_small; lia|].
  apply Z.ltb_ge. lia.
Qed.

Lemma memcpy_from_replicate a offset n :
  0 <= offset -> 0 <= n -> offset + n <= Z.of_nat a ->
  memcpy_from (replicate a x00) offset n = replicate (Z.to_nat n) x00.
Proof.
  intros Ho Hn Ha. unfold memcpy_from.
  rewrite drop_replicate, take_replicate. f_equal. lia.
Qed.

(** A copy into one range of a buffer does not show in a disjoint range. *)
Lemma memcpy_from_into_disjoint dst o1 src n1 o2 n2 :
  0 <= o1 -> 0 <= n1 -> o1 + n1 <= Z.of_nat (length dst) -> n1 <= Z.of_nat (length src) ->
  0 <= o2 -> 0 <= n2 ->
  o2 + n2 <= o1 \/ o1 + n1 <= o2 ->
  memcpy_from (memcpy_into dst o1 src n1) o2 n2 = memcpy_from dst o2 n2.
Proof.
  intros Ho1 Hn1 Hd Hs Ho2 Hn2 [Hbefore|Hafter]; unfold memcpy_from, memcpy_into.
  - rewrite drop_app_le by (rewrite length_take; lia).
    rewrite take_app_le by (rewrite length_drop, length_take; lia).
    rewrite !take_drop_commute, take_take. do 2 f_equal. lia.
  - rewrite drop_app_ge by (rewrite length_take; lia).
    rewrite drop_app_ge by (rewrite !length_take; lia).
    rewrite drop_drop, !length_take. do 2 f_equal. lia.
Qed.

(** A host-only [Malloc] without a usable process, spelled out. *)
Lemma Malloc_host_no_remote asize k permissions self :
  process_can_allocate self = false -> 0 <= k < 8 -> asize <> 0 ->
  Malloc_host asize (2 ^ k) permissions self =
    (FindSpace_host (m_allocations self), Success,
     set_allocations self
       (<[FindSpace_host (m_allocations self) :=
            Allocation_new (FindSpace_host (m_allocations self))
                           (FindSpace_host (m_allocations self))
                           asize permissions (2 ^ k) eAllocationPolicyHostOnly]>
          (m_allocations self))).
Proof.
  intros Hcan Hk Hsize. unfold Malloc_host.
  rewrite FindSpace_no_remote by done.
  rewrite decide_False by apply FindSpace_host_valid.
  unfold Malloc_record.
  pose proof (FindSpace_host_nonneg (m_allocations self)).
  assert (FindSpace_host (m_allocations self) < 2 ^ 64 - 4095) as Hlt.
  { unfold FindSpace_host. destruct (map_rbegin _) as [a|]; [|done].
    destruct (_ !! a) as [al|]; [|done]. apply alignTo_4096_range. }
  by rewrite aligned_page_address by (done || apply FindSpace_host_page || lia).
Qed.

(** X11.  Without a usable process and clear of wrap-around, a HostOnly
    [Malloc] on a well-formed index succeeds, and every read inside the
    new allocation yields zero bytes. *)
Theorem host_Malloc_reads_zero size k permissions zero_memory self :
  index_wf (m_allocations self) -> below_last_page (m_allocations self) ->
  process_can_allocate self = false ->
  0 <= k < 8 -> 0 <= size ->
  FindSpace_host (m_allocations self) + size + 2 ^ k + 4095 < 2 ^ 64 ->
  exists addr self',
    Malloc size (2 ^ k) permissions eAllocationPolicyHostOnly zero_memory self
      = (addr, Success, self') /\
    forall buf offset n,
      0 <= offset -> 0 < n -> offset + n <= Malloc_allocation_size size (2 ^ k) ->
      ReadMemory buf (addr + offset) n self'
        = (replicate (Z.to_nat n) x00, Success, self').
Proof.
  intros Hwf Hpage Hcan Hk Hsize Htop.
  pose proof (FindSpace_host_nonneg (m_allocations self)) as Hraw.
  pose proof (pow2_alignment_range k Hk) as Ha.
  pose proof (Malloc_allocation_size_bounds size k) as Hb.
  set (asize := Malloc_allocation_size size (2 ^ k)) in *.
  assert (0 < asize <= size + 2 ^ k) as Hasize by (apply Hb; lia).
  pose proof (index_wf_Malloc_host asize k permissions self) as [Hwf' _];
    try (done || lia).
  rewrite Malloc_host_no_remote in Hwf' by (done || lia). simpl in Hwf'.
  eexists _, _. split.
  { unfold Malloc. fold asize. apply Malloc_host_no_remote; (done || lia). }
  intros buf offset n Ho Hn Hend.
  set (raw := FindSpace_host (m_allocations self)) in *.
  set (al := Allocation_new raw raw asize permissions (2 ^ k) eAllocationPolicyHostOnly) in *.
  destruct (access_in_entry _ raw al (raw + offset) n Hwf') as (Hfind & Hoff & Hin);
    try (simpl; lia); [apply lookup_insert_eq|].
  unfold ReadMemory. simpl. rewrite Hfind, lookup_insert_eq, Hoff, Hin.
  replace (raw + offset - raw) with offset by lia.
  change (m_policy al) with eAllocationPolicyHostOnly. cbv iota.
  change (m_data al) with (replicate (Z.to_nat asize) x00).
  rewrite decide_False.
  2:{ intros Hnil. apply (f_equal length) in Hnil.
      rewrite length_replicate in Hnil. simpl in Hnil. lia. }
  rewrite length_replicate.
  rewrite (proj2 (Z.ltb_ge _ _)) by (rewrite wrap64_small; lia).
  by rewrite memcpy_from_replicate by lia.
Qed.

Lemma host_Malloc_reads_zero_witness :
  exists self',
    Malloc 100 (2 ^ 4) 3 eAllocationPolicyHostOnly true fresh_map = (0, Success, self') /\
    ReadMemory [x01; x01] 110 2 self' = ([x00; x00], Success, self').
Proof.
  destruct (host_Malloc_reads_zero 100 4 3 true fresh_map) as (addr & self' & HM & HR).
  - apply index_wf_empty.
  - apply below_last_page_empty.
  - reflexivity.
  - lia.
  - lia.
  - vm_compute. reflexivity.
  - assert (addr = 0) as -> by (revert HM; vm_compute; by intros [= <- _]).
    exists self'. split; [exact HM|].
    apply (HR [x01; x01] 110 2); [lia|lia|vm_compute; discriminate].
Defined.

(** ** Mirror and ProcessOnly entries *)

(** X12.  A Mirror entry whose process is gone behaves like a host-only
    one: on a well-formed index, writing a non-empty range inside it
    succeeds and reading the range back yields the bytes written, from
    the shadow buffer and without any call. *)
Theorem Mirror_roundtrip_without_process self k al addr b n :
  index_wf (m_allocations self) ->
  m_process_wp self = None ->
  m_allocations self !! k = Some al ->
  m_policy al = eAllocationPolicyMirror ->
  k <= addr -> 0 < n -> addr + n <= k + m_size al ->
  Z.of_nat (length b) = n ->
  exists self',
    WriteMemory addr b n self = (Success, self') /\
    process_calls self' = process_calls self /\
    forall buf, ReadMemory buf addr n self' = (b, Success, self').
Proof.
  intros Hwf Hp Hk Hpol Hle Hn Hend Hb.
  destruct (wf_space _ Hwf _ _ Hk) as (Hk0 & Hpos & Htop).
  destruct (access_in_entry _ k al addr n Hwf Hk Hle Hn Hend) as (Hfind & Hoff & Hin).
  assert (Z.of_nat (length (m_data al)) = m_size al) as Hlen
    by (apply (wf_shadow _ Hwf k); [done|by rewrite Hpol]).
  assert (m_data al <> []) as Hdata.
  { intros Hnil. rewrite Hnil in Hlen. simpl in Hlen. lia. }
  assert (length (memcpy_into (m_data al) (addr - k) b n) = length (m_data al)) as Hlen'
    by (apply length_memcpy_into; lia).
  assert (memcpy_into (m_data al) (addr - k) b n <> []) as Hdata'.
  { intros Hnil. rewrite Hnil in Hlen'. simpl in Hlen'. lia. }
  assert (index_wf (m_allocations (store_shadow k al (addr - k) b n self))) as Hwf'
    by (by apply (index_wf_update _ k al)).
  exists (store_shadow k al (addr - k) b n self).
  split; [|split; [done|]].
  - unfold WriteMemory. rewrite Hfind, Hk, Hpol, Hoff.
    rewrite decide_False by done. simpl. by rewrite Hp.
  - intros buf.
    destruct (access_in_entry _ k
                (Allocation_set_data al (memcpy_into (m_data al) (addr - k) b n))
                addr n Hwf') as (Hfind' & Hoff' & Hin');
      try (done || apply lookup_insert_eq).
    unfold ReadMemory. rewrite Hfind'. simpl. rewrite lookup_insert_eq.
    simpl in *. rewrite Hoff', Hin', Hpol, Hp.
    rewrite decide_False by done.
    by rewrite memcpy_from_into by lia.
Qed.

(** An index with one Mirror entry whose process has gone away. *)
Lemma Mirror_roundtrip_without_process_witness :
  let self :=
    set_allocations fresh_map
      (<[4096 := Allocation_new 4096 4096 8 3 8 eAllocationPolicyMirror]> ∅) in
  exists self',
    WriteMemory 4098 [x0a; x0b] 2 self = (Success, self') /\
    forall buf, ReadMemory buf 4098 2 self' = ([x0a; x0b], Success, self').
Proof.
  intros self.
  destruct (Mirror_roundtrip_without_process self 4096
              (Allocation_new 4096 4096 8 3 8 eAllocationPolicyMirror) 4098 [x0a; x0b] 2)
    as (self' & HW & _ & HR).
  - apply index_wf_insert_above;
      [apply index_wf_empty
      |intros k al H; by rewrite lookup_empty in H
      |reflexivity|lia|simpl; lia|simpl; lia|reflexivity].
  - reflexivity.
  - apply lookup_insert_eq.
  - reflexivity.
  - lia.
  - lia.
  - simpl. lia.
  - reflexivity.
  - exists self'. split; [exact HW|exact HR].
Defined.

(** X13.  With a process, a write inside a Mirror entry updates the
    shadow buffer and then forwards the same address, bytes and size to
    the process exactly once, returning the process's error (the shadow
    stays updated even if the process fails); a read is answered by the
    process alone and the shadow is not consulted. *)
Theorem Mirror_with_process self p k al addr b n :
  index_wf (m_allocations self) ->
  m_process_wp self = Some p ->
  m_allocations self !! k = Some al ->
  m_policy al = eAllocationPolicyMirror ->
  k <= addr -> 0 < n -> addr + n <= k + m_size al ->
  WriteMemory addr b n self
    = (Process_WriteMemory p (process_calls self) addr b n,
       log_call (store_shadow k al (addr - k) b n self) (CallWriteMemory addr b n)) /\
  forall buf,
    ReadMemory buf addr n self
      = (Process_ReadMemory p (process_calls self) addr buf n,
         log_call self (CallReadMemory addr n)).
Proof.
  intros Hwf Hp Hk Hpol Hle Hn Hend.
  destruct (wf_space _ Hwf _ _ Hk) as (Hk0 & Hpos & Htop).
  destruct (access_in_entry _ k al addr n Hwf Hk Hle Hn Hend) as (Hfind & Hoff & Hin).
  assert (Z.of_nat (length (m_data al)) = m_size al) as Hlen
    by (apply (wf_shadow _ Hwf k); [done|by rewrite Hpol]).
  assert (m_data al <> []) as Hdata.
  { intros Hnil. rewrite Hnil in Hlen. simpl in Hlen. lia. }
  split.
  - unfold WriteMemory. rewrite Hfind, Hk, Hpol, Hoff.
    rewrite decide_False by done. simpl. by rewrite Hp.
  - intros buf. unfold ReadMemory. rewrite Hfind, Hk, Hoff, Hin, Hpol. by rewrite Hp.
Qed.

Lemma Mirror_with_process_witness :
  let self :=
    (Malloc 8 8 3 eAllocationPolicyMirror false
       (IRMemoryMap_new (Some (stub_process true true [4096])) None)).2 in
  process_calls (WriteMemory 4098 [x0a; x0b] 2 self).2
    = [CallAllocateMemory 8 3; CallWriteMemory 4098 [x0a; x0b] 2].
Proof.
  intros self.
  destruct (Mirror_with_process self (stub_process true true [4096]) 4096
              (Allocation_new 4096 4096 8 3 8 eAllocationPolicyMirror) 4098 [x0a; x0b] 2)
    as [HW _].
  - assert (m_allocations self
            = <[4096 := Allocation_new 4096 4096 8 3 8 eAllocationPolicyMirror]> ∅) as ->
      by (vm_compute; reflexivity).
    apply index_wf_insert_above;
      [apply index_wf_empty
      |intros k al H; by rewrite lookup_empty in H
      |reflexivity|lia|simpl; lia|simpl; lia|reflexivity].
  - reflexivity.
  - vm_compute. reflexivity.
  - reflexivity.
  - lia.
  - lia.
  - simpl. lia.
  - rewrite HW. reflexivity.
Defined.

(** X14.  A ProcessOnly entry whose process is gone swallows accesses:
    a write inside it reports success and stores nothing, a read reports
    success and leaves the caller's buffer as it was. *)
Theorem ProcessOnly_without_process self k al addr n :
  index_wf (m_allocations self) ->
  m_process_wp self = None ->
  m_allocations self !! k = Some al ->
  m_policy al = eAllocationPolicyProcessOnly ->
  k <= addr -> 0 < n -> addr + n <= k + m_size al ->
  (forall b, WriteMemory addr b n self = (Success, self)) /\
  (forall buf, ReadMemory buf addr n self = (buf, Success, self)).
Proof.
  intros Hwf Hp Hk Hpol Hle Hn Hend.
  destruct (access_in_entry _ k al addr n Hwf Hk Hle Hn Hend) as (Hfind & Hoff & Hin).
  split.
  - intros b. unfold WriteMemory. rewrite Hfind, Hk, Hpol. by rewrite Hp.
  - intros buf. unfold ReadMemory. rewrite Hfind, Hk, Hoff, Hin, Hpol. by rewrite Hp.
Qed.

Lemma ProcessOnly_without_process_witness :
  let self :=
    set_allocations fresh_map
      (<[4096 := Allocation_new 4096 4096 8 3 8 eAllocationPolicyProcessOnly]> ∅) in
  WriteMemory 4098 [x0a; x0b] 2 self = (Success, self) /\
  ReadMemory [x01; x02] 4098 2 self = ([x01; x02], Success, self).
Proof.
  intros self.
  destruct (ProcessOnly_without_process self 4096
              (Allocation_new 4096 4096 8 3 8 eAllocationPolicyProcessOnly) 4098 2)
    as [HW HR].
  - apply index_wf_insert_above;
      [apply index_wf_empty
      |intros k al H; by rewrite lookup_empty in H
      |reflexivity|lia|simpl; lia|simpl; lia|simpl; intros H; by destruct H].
  - reflexivity.
  - apply lookup_insert_eq.
  - reflexivity.
  - lia.
  - lia.
  - simpl. lia.
  - split; [apply HW|apply HR].
Defined.

(** ** What a write does not touch *)

(** X15.  On a well-formed index, a write into a HostOnly entry changes
    nothing that a read of a disjoint range returns, whether that range
    lies in the same entry or in another HostOnly entry. *)
Theorem write_leaves_other_ranges self k1 al1 a1 b n1 k2 al2 a2 n2 :
  index_wf (m_allocations self) ->
  m_allocations self !! k1 = Some al1 -> m_policy al1 = eAllocationPolicyHostOnly ->
  k1 <= a1 -> 0 < n1 -> a1 + n1 <= k1 + m_size al1 -> n1 <= Z.of_nat (length b) ->
  m_allocations self !! k2 = Some al2 -> m_policy al2 = eAllocationPolicyHostOnly ->
  k2 <= a2 -> 0 < n2 -> a2 + n2 <= k2 + m_size al2 ->
  a2 + n2 <= a1 \/ a1 + n1 <= a2 ->
  forall buf,
    (ReadMemory buf a2 n2 (WriteMemory a1 b n1 self).2).1 = (ReadMemory buf a2 n2 self).1.
Proof.
  intros Hwf Hk1 Hpol1 Hle1 Hn1 Hend1 Hb Hk2 Hpol2 Hle2 Hn2 Hend2 Hdisj buf.
  destruct (wf_space _ Hwf _ _ Hk1) as (? & ? & ?).
  destruct (wf_space _ Hwf _ _ Hk2) as (? & ? & ?).
  destruct (access_in_entry _ k1 al1 a1 n1 Hwf Hk1 Hle1 Hn1 Hend1) as (Hfind1 & Hoff1 & _).
  destruct (access_in_entry _ k2 al2 a2 n2 Hwf Hk2 Hle2 Hn2 Hend2) as (Hfind2 & Hoff2 & Hin2).
  assert (Z.of_nat (length (m_data al1)) = m_size al1) as Hlen1
    by (apply (wf_shadow _ Hwf k1); [done|by rewrite Hpol1]).
  assert (Z.of_nat (length (m_data al2)) = m_size al2) as Hlen2
    by (apply (wf_shadow _ Hwf k2); [done|by rewrite Hpol2]).
  assert (m_data al1 <> []) as Hdata1.
  { intros Hnil. rewrite Hnil in Hlen1. simpl in Hlen1. lia. }
  assert (length (memcpy_into (m_data al1) (a1 - k1) b n1) = length (m_data al1)) as Hlen'
    by (apply length_memcpy_into; lia).
  assert ((WriteMemory a1 b n1 self).2 = store_shadow k1 al1 (a1 - k1) b n1 self) as ->.
  { unfold WriteMemory. rewrite Hfind1, Hk1, Hpol1, Hoff1. by rewrite decide_False. }
  assert (index_wf (m_allocations (store_shadow k1 al1 (a1 - k1) b n1 self))) as Hwf'
    by (by apply (index_wf_update _ k1 al1)).
  assert (memcpy_into (m_data al1) (a1 - k1) b n1 <> []) as Hdata'.
  { intros Hnil. rewrite Hnil in Hlen'. simpl in Hlen'. lia. }
  unfold ReadMemory at 2. rewrite Hfind2, Hk2, Hoff2, Hin2, Hpol2.
  destruct (decide (k1 = k2)) as [->|Hne].
  - simplify_eq.
    destruct (access_in_entry _ k2
                (Allocation_set_data al1 (memcpy_into (m_data al1) (a1 - k2) b n1))
                a2 n2 Hwf') as (Hfind' & _ & _);
      try (done || apply lookup_insert_eq).
    unfold ReadMemory. rewrite Hfind'. simpl. rewrite lookup_insert_eq.
    cbn [m_size m_process_start m_policy m_data Allocation_set_data].
    rewrite Hoff2, Hin2, Hpol2, Hlen'.
    rewrite !decide_False by done.
    rewrite memcpy_from_into_disjoint by lia.
    by destruct (Z.of_nat (length (m_data al1)) <? wrap64 (a2 - k2 + n2)).
  - destruct (access_in_entry _ k2 al2 a2 n2 Hwf') as (Hfind' & _ & _);
      try done; [simpl; by rewrite lookup_insert_ne|].
    unfold ReadMemory. rewrite Hfind'. simpl. rewrite lookup_insert_ne by done.
    rewrite Hk2, Hoff2, Hin2, Hpol2.
    destruct (decide (m_data al2 = [])); [done|].
    by destruct (Z.of_nat (length (m_data al2)) <? wrap64 (a2 - k2 + n2)).
Qed.

Lemma write_leaves_other_ranges_witness :
  let self := host_mallocs 2 3 false fresh_map in
  (ReadMemory [] 4096 2 (WriteMemory 4098 [x0a; x0b] 2 self).2).1 = ([x00; x00], Success).
Proof.
  intros self.
  rewrite (write_leaves_other_ranges self
             4096 (Allocation_new 4096 4096 112 3 16 eAllocationPolicyHostOnly)
             4098 [x0a; x0b] 2
             4096 (Allocation_new 4096 4096 112 3 16 eAllocationPolicyHostOnly)
             4096 2).
  - vm_compute. reflexivity.
  - apply two_host_mallocs_wf.
  - apply two_host_mallocs_second.
  - reflexivity.
  - lia.
  - lia.
  - simpl. lia.
  - simpl. lia.
  - apply two_host_mallocs_second.
  - reflexivity.
  - lia.
  - lia.
  - simpl. lia.
  - left. lia.
Defined.

(** X16.  No partial access: on a well-formed index, a range that starts
    inside an entry and runs past its end is contained in no entry, so
    [WriteMemory] and [ReadMemory] take the no-allocation branch whatever
    the policy of that entry, the index and every shadow buffer stay as
    they are, and without a process the write fails. *)
Theorem overrunning_access_rejected self k al addr n :
  index_wf (m_allocations self) ->
  m_allocations self !! k = Some al ->
  k <= addr < k + m_size al -> k + m_size al < addr + n -> addr + n < 2 ^ 64 ->
  FindAllocation (m_allocations self) addr n = None /\
  (forall b, WriteMemory addr b n self = WriteMemory_no_allocation addr b n self) /\
  (forall buf, ReadMemory buf addr n self = ReadMemory_no_allocation buf addr n self) /\
  (forall b, m_allocations (WriteMemory addr b n self).2 = m_allocations self) /\
  (m_process_wp self = None ->
   forall b, WriteMemory addr b n self = (err_write_no_allocation, self)).
Proof.
  intros Hwf Hk Hin Hover Htop.
  assert (FindAllocation (m_allocations self) addr n = None) as Hfind.
  { destruct (FindAllocation (m_allocations self) addr n) as [k'|] eqn:Hfind; [|done].
    apply FindAllocation_Some_wf in Hfind as (al' & Hk' & Hle' & Hend');
      [|apply Hwf|lia|lia].
    assert (k' = k) as ->.
    { apply (containing_entry_unique _ k' al' k al addr Hwf); (done || lia). }
    simplify_eq. lia. }
  assert (forall b, WriteMemory addr b n self = WriteMemory_no_allocation addr b n self)
    as HW by (intros b; unfold WriteMemory; by rewrite Hfind).
  split; [done|]. split; [done|]. split.
  { intros buf. unfold ReadMemory. by rewrite Hfind. }
  split.
  - intros b. rewrite HW. apply WriteMemory_no_allocation_index.
  - intros Hp b. rewrite HW. unfold WriteMemory_no_allocation. by rewrite Hp.
Qed.

Lemma overrunning_access_rejected_witness :
  WriteMemory 4200 [x0a; x0b; x0c; x0d; x0a; x0b; x0c; x0d; x0a; x0b] 10
    (host_mallocs 2 3 false fresh_map)
  = (err_write_no_allocation, host_mallocs 2 3 false fresh_map).
Proof.
  destruct (overrunning_access_rejected (host_mallocs 2 3 false fresh_map) 4096
              (Allocation_new 4096 4096 112 3 16 eAllocationPolicyHostOnly) 4200 10)
    as (_ & _ & _ & _ & HW).
  - apply two_host_mallocs_wf.
  - apply two_host_mallocs_second.
  - simpl. lia.
  - simpl. lia.
  - lia.
  - apply HW. reflexivity.
Defined.

(** ** Invariants over sequences of operations *)

(** X17.  Whatever the process and the target, and whatever operations
    are applied to a new map, every entry of the index is stored under its
    own aligned start. *)
Theorem operations_keep_keys process target ops :
  keyed_by_start (m_allocations (run ops (IRMemoryMap_new process target))).
Proof. apply keyed_by_start_run. apply keyed_by_start_empty. Qed.

(** X18.  Without a process, every sequence of operations that fit
    (power-of-two alignments, no 64-bit wrap-around) applied to a new map
    leaves an index whose live allocations are pairwise disjoint non-empty
    ranges, each with a shadow buffer of its size. *)
Theorem disjoint_without_process target ops :
  all_fit ops (IRMemoryMap_new None target) ->
  index_wf (m_allocations (run ops (IRMemoryMap_new None target))) /\
  disjoint_allocations (m_allocations (run ops (IRMemoryMap_new None target))).
Proof.
  intros Hfit.
  assert (index_wf (m_allocations (run ops (IRMemoryMap_new None target)))) as Hwf.
  { apply index_wf_run_without_process;
      [reflexivity|apply index_wf_empty|apply below_last_page_empty|done]. }
  split; [done|]. apply Hwf.
Qed.

Lemma disjoint_without_process_witness :
  disjoint_allocations
    (m_allocations
       (run [OpMalloc 100 16 3 eAllocationPolicyHostOnly false;
             OpMalloc 8 8 3 eAllocationPolicyMirror false;
             OpWriteMemory 4096 [x0a; x0b] 2;
             OpFree 0;
             OpMalloc 1 1 3 eAllocationPolicyHostOnly true]
            (IRMemoryMap_new None None))).
Proof.
  apply (disjoint_without_process None).
  simpl. repeat split; try lia;
    try (exists 4; split; [lia|reflexivity]);
    try (exists 3; split; [lia|reflexivity]);
    try (exists 0; split; [lia|reflexivity]);
    vm_compute; reflexivity.
Defined.

(** Without a process, operations that fit also keep the index clear of
    the last page. *)
Lemma below_last_page_run_without_process ops : forall self,
  m_process_wp self = None ->
  index_wf (m_allocations self) -> below_last_page (m_allocations self) ->
  all_fit ops self ->
  below_last_page (m_allocations (run ops self)).
Proof.
  induction ops as [|op ops IH]; intros self Hp Hwf Hpage Hfit; [done|].
  destruct Hfit as [Hop Hrest].
  destruct (index_wf_step_without_process op self) as [Hwf' Hpage']; try done.
  simpl. apply IH; try done. by apply step_without_process.
Qed.

Lemma two_host_mallocs_below_last_page :
  below_last_page (m_allocations (host_mallocs 2 3 false fresh_map)).
Proof.
  apply (below_last_page_run_without_process
           [OpMalloc 100 16 3 eAllocationPolicyHostOnly false;
            OpMalloc 100 16 3 eAllocationPolicyHostOnly false] fresh_map).
  - reflexivity.
  - apply index_wf_empty.
  - apply below_last_page_empty.
  - simpl. repeat split; try (exists 4; split; [lia|reflexivity]); try lia;
      vm_compute; reflexivity.
Qed.

(** X19.  Without a usable process and clear of wrap-around, a HostOnly
    [Malloc] on a well-formed index returns an address at or beyond the
    end of every live allocation: it is above every key, it never lands
    inside a live allocation, and it never replaces an existing entry. *)
Theorem host_Malloc_above_live size k permissions zero_memory self :
  index_wf (m_allocations self) -> below_last_page (m_allocations self) ->
  process_can_allocate self = false ->
  0 <= k < 8 -> 0 <= size ->
  FindSpace_host (m_allocations self) + size + 2 ^ k + 4095 < 2 ^ 64 ->
  exists addr self',
    Malloc size (2 ^ k) permissions eAllocationPolicyHostOnly zero_memory self
      = (addr, Success, self') /\
    (forall k' al', m_allocations self !! k' = Some al' ->
       k' < k' + m_size al' <= addr) /\
    m_allocations self !! addr = None /\
    (forall k', k' <> addr -> m_allocations self' !! k' = m_allocations self !! k').
Proof.
  intros Hwf Hpage Hcan Hk Hsize Htop.
  pose proof (FindSpace_host_nonneg (m_allocations self)) as Hraw.
  pose proof (pow2_alignment_range k Hk) as Ha.
  pose proof (Malloc_allocation_size_bounds size k) as Hb.
  assert (0 < Malloc_allocation_size size (2 ^ k) <= size + 2 ^ k) as Hasize
    by (apply Hb; lia).
  assert (forall k' al', m_allocations self !! k' = Some al' ->
            k' < k' + m_size al' <= FindSpace_host (m_allocations self)) as Habove.
  { intros k' al' Hk'. destruct (wf_space _ Hwf _ _ Hk') as (? & ? & ?).
    pose proof (FindSpace_host_above _ k' al' Hwf Hpage Hk'). lia. }
  eexists _, _. split.
  { unfold Malloc. apply Malloc_host_no_remote; (done || lia). }
  split; [done|]. split.
  - destruct (m_allocations self !! FindSpace_host (m_allocations self)) as [al'|] eqn:Hl;
      [|done].
    specialize (Habove _ _ Hl). lia.
  - intros k' Hne. simpl. by rewrite lookup_insert_ne.
Qed.

Lemma host_Malloc_above_live_witness :
  exists self',
    Malloc 1 (2 ^ 0) 3 eAllocationPolicyHostOnly false (host_mallocs 2 3 false fresh_map)
      = (8192, Success, self').
Proof.
  destruct (host_Malloc_above_live 1 0 3 false (host_mallocs 2 3 false fresh_map))
    as (addr & self' & HM & _).
  - apply two_host_mallocs_wf.
  - apply two_host_mallocs_below_last_page.
  - reflexivity.
  - lia.
  - lia.
  - vm_compute. reflexivity.
  - assert (addr = 8192) as -> by (revert HM; vm_compute; by intros [= <- _]).
    exists self'. exact HM.
Defined.

(** ** GetMemoryData *)

Section GetMemoryDataProperties.

Context {ByteOrder : Type} (eByteOrderInvalid : ByteOrder).
Context (Process_GetByteOrder : Process -> ByteOrder)
        (Process_GetAddressByteSize : Process -> Z)
        (Target_GetByteOrder : Target -> ByteOrder)
        (Target_GetAddressByteSize : Target -> Z).

Local Abbreviation GetMemoryData' :=
  (GetMemoryData eByteOrderInvalid Process_GetByteOrder Process_GetAddressByteSize
                 Target_GetByteOrder Target_GetAddressByteSize).

(** X20.  For a non-empty range inside a HostOnly entry of a well-formed
    index, [GetMemoryData] succeeds without changing the map and hands out
    an extractor over that range which shows the bytes [ReadMemory]
    returns for it.  The extractor points into the shadow buffer: bytes
    written to the range afterwards show through it. *)
Theorem GetMemoryData_HostOnly self k al addr n :
  index_wf (m_allocations self) ->
  m_allocations self !! k = Some al ->
  m_policy al = eAllocationPolicyHostOnly ->
  k <= addr -> 0 < n -> addr + n <= k + m_size al ->
  exists extractor bytes,
    GetMemoryData' addr n self = (Some extractor, Success, self) /\
    (de_allocation extractor, de_offset extractor, de_size extractor) = (k, addr - k, n) /\
    DataExtractor_bytes (m_allocations self) extractor = Some bytes /\
    (forall buf, ReadMemory buf addr n self = (bytes, Success, self)) /\
    (forall b, Z.of_nat (length b) = n ->
       DataExtractor_bytes (m_allocations (WriteMemory addr b n self).2) extractor = Some b).
Proof.
  intros Hwf Hk Hpol Hle Hn Hend.
  destruct (wf_space _ Hwf _ _ Hk) as (Hk0 & Hpos & Htop).
  destruct (access_in_entry _ k al addr n Hwf Hk Hle Hn Hend) as (Hfind & Hoff & Hin).
  assert (Z.of_nat (length (m_data al)) = m_size al) as Hlen
    by (apply (wf_shadow _ Hwf k); [done|by rewrite Hpol]).
  assert (m_data al <> []) as Hdata.
  { intros Hnil. rewrite Hnil in Hlen. simpl in Hlen. lia. }
  eexists _, (memcpy_from (m_data al) (addr - k) n).
  split; [|split; [|split; [|split]]].
  - unfold GetMemoryData. rewrite (proj2 (Z.ltb_lt 0 n)) by done.
    rewrite Hfind, Hk, Hpol, Hoff. by rewrite decide_False.
  - done.
  - unfold DataExtractor_bytes. simpl. by rewrite Hk.
  - intros buf. unfold ReadMemory. rewrite Hfind, Hk, Hoff, Hin, Hpol.
    rewrite decide_False by done.
    by rewrite (proj2 (Z.ltb_ge _ _)) by (rewrite wrap64_small; lia).
  - intros b Hb. unfold WriteMemory. rewrite Hfind, Hk, Hpol, Hoff.
    rewrite decide_False by done.
    unfold DataExtractor_bytes. simpl. rewrite lookup_insert_eq. simpl.
    by rewrite memcpy_from_into by lia.
Qed.

(** X21.  For a non-empty range inside a Mirror entry of a well-formed
    index whose process is there, [GetMemoryData] reads the whole shadow
    buffer afresh from the process (one [ReadMemory] call, at the start of
    the allocation, of the length of the buffer) and stores what it got in
    the entry, whatever was in the shadow before and even if the read
    fails; on success the extractor shows the refreshed bytes of the
    range, on failure none is handed out. *)
Theorem GetMemoryData_Mirror_refresh self p k al addr n :
  index_wf (m_allocations self) ->
  m_process_wp self = Some p ->
  m_allocations self !! k = Some al ->
  m_policy al = eAllocationPolicyMirror ->
  k <= addr -> 0 < n -> addr + n <= k + m_size al ->
  let reply := Process_ReadMemory p (process_calls self) k (m_data al) (m_size al) in
  let r := GetMemoryData' addr n self in
  r.1.2 = reply.2 /\
  process_calls r.2 = process_calls self ++ [CallReadMemory k (m_size al)] /\
  m_allocations r.2 = <[k := Allocation_set_data al reply.1]> (m_allocations self) /\
  match r.1.1 with
  | Some extractor =>
      reply.2 = Success /\
      DataExtractor_bytes (m_allocations r.2) extractor
        = Some (memcpy_from reply.1 (addr - k) n)
  | None => reply.2 <> Success
  end.
Proof.
  intros Hwf Hp Hk Hpol Hle Hn Hend.
  destruct (wf_space _ Hwf _ _ Hk) as (Hk0 & Hpos & Htop).
  destruct (access_in_entry _ k al addr n Hwf Hk Hle Hn Hend) as (Hfind & Hoff & Hin).
  assert (Z.of_nat (length (m_data al)) = m_size al) as Hlen
    by (apply (wf_shadow _ Hwf k); [done|by rewrite Hpol]).
  assert (m_data al <> []) as Hdata.
  { intros Hnil. rewrite Hnil in Hlen. simpl in Hlen. lia. }
  simpl. unfold GetMemoryData. rewrite (proj2 (Z.ltb_lt 0 n)) by done.
  rewrite Hfind, Hk, Hpol, Hp, Hoff, Hlen, (wf_keyed _ Hwf _ _ Hk).
  rewrite decide_False by done.
  destruct (Process_ReadMemory p (process_calls self) k (m_data al) (m_size al))
    as [data error].
  destruct error as [|msg]; simpl.
  - repeat split; try done.
    unfold DataExtractor_bytes. simpl. by rewrite lookup_insert_eq.
  - repeat split; done.
Qed.

(** X22.  When the bytes are not on the host, [GetMemoryData] hands out
    no extractor and leaves the map alone: for a range inside a
    ProcessOnly entry it fails; for a range inside a Mirror entry whose
    process is gone it falls out of the switch and reports success all
    the same. *)
Theorem GetMemoryData_no_host_bytes self k al addr n :
  index_wf (m_allocations self) ->
  m_allocations self !! k = Some al ->
  k <= addr -> 0 < n -> addr + n <= k + m_size al ->
  (m_policy al = eAllocationPolicyProcessOnly ->
   GetMemoryData' addr n self = (None, err_get_data_process_only, self)) /\
  (m_policy al = eAllocationPolicyMirror -> m_process_wp self = None ->
   GetMemoryData' addr n self = (None, Success, self)).
Proof.
  intros Hwf Hk Hle Hn Hend.
  destruct (wf_space _ Hwf _ _ Hk) as (Hk0 & Hpos & Htop).
  destruct (access_in_entry _ k al addr n Hwf Hk Hle Hn Hend) as (Hfind & Hoff & Hin).
  split.
  - intros Hpol. unfold GetMemoryData. rewrite (proj2 (Z.ltb_lt 0 n)) by done.
    by rewrite Hfind, Hk, Hpol.
  - intros Hpol Hp.
    assert (Z.of_nat (length (m_data al)) = m_size al) as Hlen
      by (apply (wf_shadow _ Hwf k); [done|by rewrite Hpol]).
    assert (m_data al <> []) as Hdata.
    { intros Hnil. rewrite Hnil in Hlen. simpl in Hlen. lia. }
    unfold GetMemoryData. rewrite (proj2 (Z.ltb_lt 0 n)) by done.
    rewrite Hfind, Hk, Hpol, Hp. by rewrite decide_False.
Qed.

End GetMemoryDataProperties.

Lemma index_wf_singleton k al :
  m_process_start al = k -> 0 <= k -> 0 < m_size al -> k + m_size al < 2 ^ 64 ->
  (m_policy al <> eAllocationPolicyProcessOnly ->
   Z.of_nat (length (m_data al)) = m_size al) ->
  index_wf (<[k := al]> ∅).
Proof.
  intros Hstart Hk Hsize Htop Hdata.
  apply index_wf_insert_above;
    [apply index_wf_empty
    |intros k' al' H'; by rewrite lookup_empty in H'
    |done..].
Qed.

Lemma GetMemoryData_HostOnly_witness :
  exists extractor,
    GetMemoryData false (fun _ => true) (fun _ => 8) (fun _ => true) (fun _ => 8)
      4098 2 (host_mallocs 2 3 false fresh_map)
    = (Some extractor, Success, host_mallocs 2 3 false fresh_map) /\
    DataExtractor_bytes (m_allocations (host_mallocs 2 3 false fresh_map)) extractor
    = Some [x00; x00].
Proof.
  destruct (GetMemoryData_HostOnly false (fun _ => true) (fun _ => 8) (fun _ => true)
              (fun _ => 8) (host_mallocs 2 3 false fresh_map) 4096
              (Allocation_new 4096 4096 112 3 16 eAllocationPolicyHostOnly) 4098 2)
    as (extractor & bytes & HG & Hfields & Hbytes & HR & _).
  - apply two_host_mallocs_wf.
  - apply two_host_mallocs_second.
  - reflexivity.
  - lia.
  - lia.
  - simpl. lia.
  - exists extractor. split; [exact HG|].
    rewrite Hbytes. f_equal.
    specialize (HR []). revert HR. vm_compute. by intros [= <-].
Defined.

Lemma GetMemoryData_Mirror_refresh_witness :
  let self :=
    (Malloc 8 8 3 eAllocationPolicyMirror false
       (IRMemoryMap_new (Some (stub_process true true [4096])) None)).2 in
  process_calls
    (GetMemoryData false (fun _ => true) (fun _ => 8) (fun _ => true) (fun _ => 8)
       4098 2 self).2
  = [CallAllocateMemory 8 3; CallReadMemory 4096 8].
Proof.
  intros self.
  destruct (GetMemoryData_Mirror_refresh false (fun _ => true) (fun _ => 8) (fun _ => true)
              (fun _ => 8) self (stub_process true true [4096]) 4096
              (Allocation_new 4096 4096 8 3 8 eAllocationPolicyMirror) 4098 2)
    as (_ & Hcalls & _).
  - assert (m_allocations self
            = <[4096 := Allocation_new 4096 4096 8 3 8 eAllocationPolicyMirror]> ∅) as ->
      by (vm_compute; reflexivity).
    apply index_wf_singleton; simpl; (done || lia).
  - reflexivity.
  - vm_compute. reflexivity.
  - reflexivity.
  - lia.
  - lia.
  - simpl. lia.
  - rewrite Hcalls. reflexivity.
Defined.

Lemma GetMemoryData_no_host_bytes_witness :
  let self :=
    set_allocations fresh_map
      (<[4096 := Allocation_new 4096 4096 8 3 8 eAllocationPolicyMirror]> ∅) in
  GetMemoryData false (fun _ => true) (fun _ => 8) (fun _ => true) (fun _ => 8) 4098 2 self
  = (None, Success, self).
Proof.
  intros self.
  destruct (GetMemoryData_no_host_bytes false (fun _ => true) (fun _ => 8) (fun _ => true)
              (fun _ => 8) self 4096
              (Allocation_new 4096 4096 8 3 8 eAllocationPolicyMirror) 4098 2)
    as [_ HM].
  - apply index_wf_singleton; simpl; (done || lia).
  - apply lookup_insert_eq.
  - lia.
  - lia.
  - simpl. lia.
  - apply HM; reflexivity.
Defined.

(** ** Scalars and pointers *)

(** Writing into a HostOnly entry and reading the range back, as used by
    the scalar and pointer helpers. *)
Lemma HostOnly_write_then_read self k al addr b n :
  index_wf (m_allocations self) ->
  m_allocations self !! k = Some al ->
  m_policy al = eAllocationPolicyHostOnly ->
  k <= addr -> 0 < n -> addr + n <= k + m_size al ->
  Z.of_nat (length b) = n ->
  WriteMemory addr b n self = (Success, store_shadow k al (addr - k) b n self) /\
  forall buf,
    ReadMemory buf addr n (store_shadow k al (addr - k) b n self)
      = (b, Success, store_shadow k al (addr - k) b n self).
Proof.
  intros Hwf Hk Hpol Hle Hn Hend Hb.
  destruct (wf_space _ Hwf _ _ Hk) as (Hk0 & Hpos & Htop).
  destruct (access_in_entry _ k al addr n Hwf Hk Hle Hn Hend) as (Hfind & Hoff & Hin).
  assert (Z.of_nat (length (m_data al)) = m_size al) as Hlen
    by (apply (wf_shadow _ Hwf k); [done|by rewrite Hpol]).
  assert (m_data al <> []) as Hdata.
  { intros Hnil. rewrite Hnil in Hlen. simpl in Hlen. lia. }
  assert (length (memcpy_into (m_data al) (addr - k) b n) = length (m_data al)) as Hlen'
    by (apply length_memcpy_into; lia).
  assert (memcpy_into (m_data al) (addr - k) b n <> []) as Hdata'.
  { intros Hnil. rewrite Hnil in Hlen'. simpl in Hlen'. lia. }
  assert (index_wf (m_allocations (store_shadow k al (addr - k) b n self))) as Hwf'
    by (by apply (index_wf_update _ k al)).
  split.
  - unfold WriteMemory. rewrite Hfind, Hk, Hpol, Hoff. by rewrite decide_False.
  - intros buf.
    destruct (access_in_entry _ k
                (Allocation_set_data al (memcpy_into (m_data al) (addr - k) b n))
                addr n Hwf') as (Hfind' & _ & _);
      try (done || apply lookup_insert_eq).
    unfold ReadMemory. rewrite Hfind'. simpl. rewrite lookup_insert_eq.
    cbn [m_size m_process_start m_policy m_data Allocation_set_data].
    rewrite Hoff, Hin, Hpol, Hlen'.
    rewrite decide_False by done.
    rewrite (proj2 (Z.ltb_ge _ _)) by (rewrite wrap64_small; lia).
    by rewrite memcpy_from_into by lia.
Qed.

Section ScalarProperties.

Context {ByteOrder : Type} (eByteOrderInvalid : ByteOrder).
Context (Process_GetByteOrder : Process -> ByteOrder)
        (Process_GetAddressByteSize : Process -> Z)
        (Target_GetByteOrder : Target -> ByteOrder)
        (Target_GetAddressByteSize : Target -> Z).
Context {Scalar : Type}.
Context (Scalar_GetByteSize : Scalar -> Z)
        (Scalar_GetAsMemoryData : Scalar -> Z -> ByteOrder -> list byte)
        (Scalar_of_address : Z -> Scalar)
        (DataExtractor_GetUnsigned : Z -> ByteOrder -> list byte -> Z)
        (Scalar_of_unsigned : Z -> Z -> Scalar)
        (Scalar_ULongLong : Scalar -> Z).

Local Abbreviation byte_order :=
  (GetByteOrder eByteOrderInvalid Process_GetByteOrder Target_GetByteOrder).
Local Abbreviation address_byte_size :=
  (GetAddressByteSize Process_GetAddressByteSize Target_GetAddressByteSize).
Local Abbreviation WriteScalar :=
  (WriteScalarToMemory eByteOrderInvalid Process_GetByteOrder Target_GetByteOrder
                       Scalar_GetByteSize Scalar_GetAsMemoryData).
Local Abbreviation ReadScalar :=
  (ReadScalarFromMemory eByteOrderInvalid Process_GetByteOrder Target_GetByteOrder
                        DataExtractor_GetUnsigned Scalar_of_unsigned).
Local Abbreviation WritePointer :=
  (WritePointerToMemory eByteOrderInvalid Process_GetByteOrder Process_GetAddressByteSize
                        Target_GetByteOrder Target_GetAddressByteSize
                        Scalar_GetByteSize Scalar_GetAsMemoryData Scalar_of_address).
Local Abbreviation ReadPointer :=
  (ReadPointerFromMemory eByteOrderInvalid Process_GetByteOrder Process_GetAddressByteSize
                         Target_GetByteOrder Target_GetAddressByteSize
                         DataExtractor_GetUnsigned Scalar_of_unsigned Scalar_ULongLong).

(** A scalar written into a HostOnly entry is read back from the bytes
    the encoder produced; process and target are left as they were. *)
Lemma scalar_stored_then_read self k al addr scalar size :
  index_wf (m_allocations self) ->
  m_allocations self !! k = Some al ->
  m_policy al = eAllocationPolicyHostOnly ->
  k <= addr -> addr + size <= k + m_size al ->
  size = 1 \/ size = 2 \/ size = 4 \/ size = 8 ->
  Z.of_nat (length (Scalar_GetAsMemoryData scalar size (byte_order self))) = size ->
  exists self',
    WriteScalar addr scalar size self = (Success, self') /\
    ReadScalar addr size self'
      = (Some (Scalar_of_unsigned size
                 (DataExtractor_GetUnsigned size (byte_order self)
                    (Scalar_GetAsMemoryData scalar size (byte_order self)))),
         Success, self') /\
    m_process_wp self' = m_process_wp self /\
    m_target_wp self' = m_target_wp self.
Proof.
  intros Hwf Hk Hpol Hle Hend Hsize Henc.
  set (bytes := Scalar_GetAsMemoryData scalar size (byte_order self)) in *.
  assert (0 < size) as Hpos by lia.
  destruct (HostOnly_write_then_read self k al addr bytes size) as [HW HR]; try done.
  exists (store_shadow k al (addr - k) bytes size self). split; [|split; [|done]].
  - unfold WriteScalarToMemory.
    rewrite decide_False by (unfold UINT32_MAX; lia).
    rewrite (proj2 (Z.ltb_lt 0 size)) by done. fold bytes.
    rewrite Henc, (proj2 (Z.ltb_lt 0 size)) by done. exact HW.
  - unfold ReadScalarFromMemory.
    rewrite (proj2 (Z.ltb_lt 0 size)) by done.
    rewrite HR. cbn [Error_Success]. by rewrite decide_True by done.
Qed.

(** X23.  The scalar helpers add nothing between encoder and decoder: if
    the encoder stores exactly the requested 1, 2, 4 or 8 bytes, then
    writing a scalar into a HostOnly entry of a well-formed index and
    reading a scalar of that size back from the same address succeeds and
    yields the scalar decoded, in the same byte order, from exactly the
    bytes that were encoded. *)
Theorem scalar_write_then_read self k al addr scalar size :
  index_wf (m_allocations self) ->
  m_allocations self !! k = Some al ->
  m_policy al = eAllocationPolicyHostOnly ->
  k <= addr -> addr + size <= k + m_size al ->
  size = 1 \/ size = 2 \/ size = 4 \/ size = 8 ->
  Z.of_nat (length (Scalar_GetAsMemoryData scalar size (byte_order self))) = size ->
  exists self',
    WriteScalar addr scalar size self = (Success, self') /\
    ReadScalar addr size self'
      = (Some (Scalar_of_unsigned size
                 (DataExtractor_GetUnsigned size (byte_order self)
                    (Scalar_GetAsMemoryData scalar size (byte_order self)))),
         Success, self').
Proof.
  intros Hwf Hk Hpol Hle Hend Hsize Henc.
  destruct (scalar_stored_then_read self k al addr scalar size)
    as (self' & HW & HR & _); try done.
  by exists self'.
Qed.

(** X24.  [ReadScalarFromMemory] hands out a scalar only for the sizes
    1, 2, 4 and 8.  The size is checked after the read: for every other
    non-zero size the read has been made all the same (the map is in the
    state [ReadMemory] left it in) and the call fails, with the error of
    the read if that failed and with "unsupported size" otherwise.  For
    size 0 it fails without reading. *)
Theorem ReadScalarFromMemory_sizes addr size self :
  0 <= size ->
  (size = 0 -> ReadScalar addr size self = (None, err_read_scalar_zero, self)) /\
  (0 < size -> ~ (size = 1 \/ size = 2 \/ size = 4 \/ size = 8) ->
   let read := ReadMemory (replicate (Z.to_nat size) x00) addr size self in
   ReadScalar addr size self
     = (None,
        if Error_Success read.1.2 then err_read_scalar_unsupported size else read.1.2,
        read.2)) /\
  (forall s e self', ReadScalar addr size self = (Some s, e, self') ->
     (size = 1 \/ size = 2 \/ size = 4 \/ size = 8) /\ e = Success).
Proof.
  intros Hsize. split; [|split].
  - intros ->. reflexivity.
  - intros Hpos Hno. simpl. unfold ReadScalarFromMemory.
    rewrite (proj2 (Z.ltb_lt 0 size)) by done.
    destruct (ReadMemory _ addr size self) as [[bytes error] self1]. simpl.
    destruct (Error_Success error); [|done]. by rewrite decide_False.
  - intros s e self'. unfold ReadScalarFromMemory.
    destruct (0 <? size); [|done].
    destruct (ReadMemory _ addr size self) as [[bytes error] self1].
    destruct error as [|msg]; simpl; [|done].
    destruct (decide _) as [Hs|]; [|done]. by intros [= _ <- _].
Qed.

(** X25.  With neither process nor target, [GetAddressByteSize] is
    [UINT32_MAX].  [WritePointerToMemory] takes that for "the scalar's own
    size" and writes the pointer scalar at its natural size, but
    [ReadPointerFromMemory] asks for a scalar of [UINT32_MAX] bytes, which
    is never a supported size: it stores no address and always fails. *)
Theorem pointers_without_process_and_target addr self :
  m_process_wp self = None -> m_target_wp self = None ->
  address_byte_size self = UINT32_MAX /\
  (forall address,
     WritePointer addr address self
       = WriteScalar addr (Scalar_of_address address)
                     (Scalar_GetByteSize (Scalar_of_address address)) self) /\
  (ReadPointer addr self).1.1 = None /\
  (ReadPointer addr self).1.2 <> Success.
Proof.
  intros Hp Ht.
  assert (address_byte_size self = UINT32_MAX) as Hsize
    by (unfold GetAddressByteSize; by rewrite Hp, Ht).
  split; [exact Hsize|]. split.
  - intros address. unfold WritePointerToMemory, WriteScalarToMemory. rewrite Hsize.
    rewrite decide_True by done. by destruct (decide _).
  - unfold ReadPointerFromMemory, ReadScalarFromMemory. rewrite Hsize.
    change (0 <? UINT32_MAX) with true. cbv iota.
    destruct (ReadMemory _ addr UINT32_MAX self) as [[bytes error] self1].
    destruct error as [|msg]; [|done].
    cbn [Error_Success]. rewrite decide_False by (unfold UINT32_MAX; lia). done.
Qed.

(** X26.  With a process whose address size is 4 or 8, a pointer written
    into a HostOnly entry of a well-formed index is read back as the
    decoding of the bytes its scalar was encoded to, provided the encoder
    stores exactly that many bytes. *)
Theorem pointer_write_then_read self p k al addr address :
  index_wf (m_allocations self) ->
  m_process_wp self = Some p ->
  Process_GetAddressByteSize p = 4 \/ Process_GetAddressByteSize p = 8 ->
  m_allocations self !! k = Some al ->
  m_policy al = eAllocationPolicyHostOnly ->
  k <= addr -> addr + Process_GetAddressByteSize p <= k + m_size al ->
  Z.of_nat (length (Scalar_GetAsMemoryData (Scalar_of_address address)
                      (Process_GetAddressByteSize p) (Process_GetByteOrder p)))
    = Process_GetAddressByteSize p ->
  exists self',
    WritePointer addr address self = (Success, self') /\
    ReadPointer addr self'
      = (Some (Scalar_ULongLong
                 (Scalar_of_unsigned (Process_GetAddressByteSize p)
                    (DataExtractor_GetUnsigned (Process_GetAddressByteSize p)
                       (Process_GetByteOrder p)
                       (Scalar_GetAsMemoryData (Scalar_of_address address)
                          (Process_GetAddressByteSize p) (Process_GetByteOrder p))))),
         Success, self').
Proof.
  intros Hwf Hp Hsize Hk Hpol Hle Hend Henc.
  assert (address_byte_size self = Process_GetAddressByteSize p) as Hw
    by (unfold GetAddressByteSize; by rewrite Hp).
  assert (byte_order self = Process_GetByteOrder p) as Hbo
    by (unfold GetByteOrder; by rewrite Hp).
  destruct (scalar_stored_then_read self k al addr (Scalar_of_address address)
              (Process_GetAddressByteSize p)) as (self' & HW & HR & Hp' & _);
    try done; [lia|by rewrite Hbo|].
  exists self'. split.
  - unfold WritePointerToMemory. rewrite Hw. exact HW.
  - unfold ReadPointerFromMemory.
    assert (address_byte_size self' = Process_GetAddressByteSize p) as ->
      by (unfold GetAddressByteSize; by rewrite Hp', Hp).
    rewrite HR. simpl. by rewrite Hbo.
Qed.

End ScalarProperties.

Lemma scalar_write_then_read_witness :
  exists self',
    WriteScalarToMemory false (fun _ => true) (fun _ => true) (fun _ => 8)
      le_GetAsMemoryData 4100 4660 2 (host_mallocs 2 3 false fresh_map)
    = (Success, self') /\
    ReadScalarFromMemory false (fun _ => true) (fun _ => true) le_GetUnsigned
      (fun _ v => v) 4100 2 self'
    = (Some 4660, Success, self').
Proof.
  destruct (scalar_write_then_read false (fun _ => true) (fun _ => true) (fun _ : Z => 8)
              le_GetAsMemoryData le_GetUnsigned (fun _ v => v)
              (host_mallocs 2 3 false fresh_map) 4096
              (Allocation_new 4096 4096 112 3 16 eAllocationPolicyHostOnly) 4100 4660 2)
    as (self' & HW & HR).
  - apply two_host_mallocs_wf.
  - apply two_host_mallocs_second.
  - reflexivity.
  - lia.
  - simpl. lia.
  - lia.
  - reflexivity.
  - exists self'. split; [exact HW|exact HR].
Defined.

Lemma ReadScalarFromMemory_sizes_witness :
  ReadScalarFromMemory false (fun _ => true) (fun _ => true) le_GetUnsigned
    (fun _ v => v) 4100 3 (host_mallocs 2 3 false fresh_map)
  = (None, err_read_scalar_unsupported 3, host_mallocs 2 3 false fresh_map).
Proof.
  destruct (ReadScalarFromMemory_sizes false (fun _ => true) (fun _ => true)
              le_GetUnsigned (fun _ v => v) 4100 3 (host_mallocs 2 3 false fresh_map))
    as (_ & H & _); [lia|].
  rewrite H by lia. vm_compute. reflexivity.
Defined.

Lemma pointers_without_process_and_target_witness :
  (ReadPointerFromMemory false (fun _ => true) (fun _ => 8) (fun _ => true) (fun _ => 8)
     le_GetUnsigned (fun _ v => v) (fun v => v) 4100
     (host_mallocs 2 3 false fresh_map)).1.1 = None.
Proof.
  apply (pointers_without_process_and_target false (fun _ => true) (fun _ => 8)
           (fun _ => true) (fun _ => 8) (fun _ : Z => 8) le_GetAsMemoryData (fun v => v)
           le_GetUnsigned (fun _ v => v) (fun v => v) 4100
           (host_mallocs 2 3 false fresh_map)); reflexivity.
Defined.

Lemma pointer_write_then_read_witness :
  exists self',
    WritePointerToMemory false (fun _ => true) (fun _ => 8) (fun _ => true) (fun _ => 8)
      (fun _ => 8) le_GetAsMemoryData (fun v => v) 4104 3735928559
      one_host_entry_with_process
    = (Success, self') /\
    ReadPointerFromMemory false (fun _ => true) (fun _ => 8) (fun _ => true) (fun _ => 8)
      le_GetUnsigned (fun _ v => v) (fun v => v) 4104 self'
    = (Some 3735928559, Success, self').
Proof.
  destruct (pointer_write_then_read false (fun _ => true) (fun _ => 8)
              (fun _ => true) (fun _ => 8) (fun _ : Z => 8) le_GetAsMemoryData (fun v => v)
              le_GetUnsigned (fun _ v => v) (fun v => v)
              one_host_entry_with_process alive_no_jit_process 4096
              (Allocation_new 4096 4096 112 3 16 eAllocationPolicyHostOnly)
              4104 3735928559)
    as (self' & HW & HR).
  - apply index_wf_singleton; [reflexivity|lia|simpl; lia|simpl; lia|reflexivity].
  - reflexivity.
  - right. reflexivity.
  - apply lookup_insert_eq.
  - reflexivity.
  - lia.
  - simpl. lia.
  - reflexivity.
  - exists self'. split; [exact HW|exact HR].
Defined.
